(** * arc-git: the annotate command

    A shallow embedding of [internal/cmd] (the annotate workflow) and of
    [internal/prompt] (the prompt template), with the collaborators the
    command shells out to (the git binary, the AI service, standard
    output) kept behind an explicit environment, and theorems about the
    run/report policy of [runAnnotate]. *)

From Stdlib Require Import ZArith Lia Ascii String.
From stdpp Require Import gmap strings list fin_maps pretty.

Open Scope Z_scope.

(** ** Go values *)

(** Go strings are byte sequences: [string] is a list of bytes, [len] is
    [String.length], and indexing and slicing count bytes. *)

Definition LF : string := String "010"%char "".
Definition DQ : string := String "034"%char "".

(** A Go [error] value, observed through its [Error()] text.
    [Errorf] is what [fmt.Errorf] builds, [CLIError] what
    [errors.NewCLIError(msg).WithHint(hint)] builds. *)
Inductive error : Type :=
| Errorf (msg : string)
| CLIError (msg hint : string).

Definition Error (e : error) : string :=
  match e with
  | Errorf msg => msg
  | CLIError msg _ => msg
  end.

(** Run-time panics of the Go runtime that the command can hit. *)
Inductive panic : Type :=
| IndexOutOfRange (i len : nat)      (* index out of range [i] with length len *)
| SliceOutOfRange (hi len : nat).    (* slice bounds out of range [:hi] with length len *)

Inductive result (A : Type) : Type :=
| Done (a : A)
| Panicked (p : panic).
Arguments Done {A} a.
Arguments Panicked {A} p.

(** ** Data model of the command *)

Record Commit : Type := mkCommit {
  Hash : string;
  Message : string;
  Author : string;
  Date : string
}.

(** [AnnotationResult], the per-commit outcome (local type of [runAnnotate]). *)
Record AnnotationResult : Type := mkResult {
  res_Hash : string;
  res_Status : string;
  res_Message : string;       (* omitempty *)
  res_Annotation : string     (* omitempty *)
}.

(** The map encoded in JSON mode. *)
Record Summary : Type := mkSummary {
  total : Z;
  annotated : Z;
  skipped : Z;
  failed : Z;
  dry_run : bool;
  results : list AnnotationResult
}.

(** Modelled from the spec: [ai.Config] belongs to arc-sdk and is not
    among the sources; the configuration holds a provider name, an API
    key and a default model, the fields the command overrides from its
    flags. *)
Record Config : Type := mkConfig {
  Provider : string;
  APIKey : string;
  DefaultModel : string
}.

(** [ai.RunOptions], with the fields [generateAnnotation] sets. *)
Record RunOptions : Type := mkRunOptions {
  System : string;
  Prompt : string;
  Model : string
}.

(** Modelled from the spec: [output.OutputOptions] belongs to arc-sdk and
    is not among the sources.  The command line offers the modes text
    (the table default), json, yaml and quiet, which the source names
    [OutputTable], [OutputJSON], [OutputYAML] and [OutputQuiet]; after
    [Resolve] one of them is selected, and [Is] tests for it. *)
Inductive OutputFormat : Type := OutputTable | OutputJSON | OutputYAML | OutputQuiet.

Record OutputOptions : Type := mkOutput { Format : OutputFormat }.

Definition format_eqb (a b : OutputFormat) : bool :=
  match a, b with
  | OutputTable, OutputTable | OutputJSON, OutputJSON
  | OutputYAML, OutputYAML | OutputQuiet, OutputQuiet => true
  | _, _ => false
  end.

Definition Is (out : OutputOptions) (f : OutputFormat) : bool :=
  format_eqb (Format out) f.

(** ** The world the command runs in *)

(** Arguments of a [Printf] call. *)
Inductive PArg : Type :=
| PInt (n : Z)
| PStr (s : string).

(** What the command does to the outside, in order. *)
Inductive Event : Type :=
| EvPrintf (format : string) (args : list PArg)
| EvPrintln (line : string)
| EvExec (name : string) (args : list string)
| EvCreateTemp (pattern : string)
| EvRemove (file : string)
| EvValidateConfig (cfg : Config)
| EvNewClient (cfg : Config)
| EvServiceRun (cfg : Config) (opts : RunOptions)
| EvEncodeJSON (v : Summary).

(** Modelled from the spec: the notes of the repository, which the git
    binary keeps: a note is a text attached to a commit under a ref, so
    the notes are a map from (ref, commit hash) to text.  A note-exists
    check is a lookup and a note-add that succeeds stores the text.  This
    is the only state of the outside the command can change. *)
Abbreviation Notes :=
  (@gmap (string * string) (@prod_eq_dec string String.eq_dec string String.eq_dec)
     (@prod_countable string String.eq_dec String.countable string String.eq_dec
        String.countable)
     string).

(** Modelled from the spec: the answers of the collaborators (the git
    binary, the file system, the AI client of arc-sdk, the JSON encoder
    on standard output), which the command consumes as black boxes.  Each
    is a function of the request, so a run is deterministic once the
    environment is fixed. *)
Record Env : Type := mkEnv {
  (* [exec.Command(name, args...).Output()]: standard output, or the error *)
  cmd_Output : string -> list string -> string + error;
  (* [exec.Command(name, args...).CombinedOutput()] of a command that
     fails: the error and what the command printed; [None] when it succeeds *)
  cmd_CombinedOutput : string -> list string -> option (error * string);
  (* [os.CreateTemp]: the name of the new file, or the error *)
  os_CreateTemp : string -> string + error;
  (* [tmpFile.WriteString]: the error, if any *)
  file_WriteString : string -> string -> option error;
  (* [ai.ValidateConfig], [ai.NewClient]: the error, if any *)
  ai_ValidateConfig : Config -> option error;
  ai_NewClient : Config -> option error;
  (* [service.Run] of the service built from a configuration: the text
     of the response, or the error *)
  service_Run : Config -> RunOptions -> string + error;
  (* [encoder.Encode] to standard output: the error, if any *)
  json_Encode : Summary -> option error
}.

(** ** The monad of the embedding: notes are threaded, events are
    collected, a panic stops the computation. *)

Definition M (A : Type) : Type := Notes -> result A * Notes * list Event.

Definition ret {A} (a : A) : M A := fun s => (Done a, s, []).

Definition bind {A B} (m : M A) (k : A -> M B) : M B :=
  fun s =>
    match m s with
    | (Done a, s1, ev1) =>
        match k a s1 with
        | (r, s2, ev2) => (r, s2, ev1 ++ ev2)
        end
    | (Panicked p, s1, ev1) => (Panicked p, s1, ev1)
    end.

Definition raise {A} (p : panic) : M A := fun s => (Panicked p, s, []).
Definition emit (e : Event) : M unit := fun s => (Done tt, s, [e]).
Definition getNotes : M Notes := fun s => (Done s, s, []).
Definition putNotes (n : Notes) : M unit := fun _ => (Done tt, n, []).

Declare Scope go_scope.
Delimit Scope go_scope with go.
Notation "x <- m ;; k" := (bind m (fun x => k))
  (at level 100, m at next level, right associativity) : go_scope.
Notation "m ;;; k" := (bind m (fun _ => k))
  (at level 100, right associativity) : go_scope.
Open Scope go_scope.

Definition value {A} (x : result A * Notes * list Event) : result A := x.1.1.
Definition notes_after {A} (x : result A * Notes * list Event) : Notes := x.1.2.
Definition events {A} (x : result A * Notes * list Event) : list Event := x.2.

(** ** Go library functions the command uses *)

(** [s[:hi]] *)
Definition slice_to (s : string) (hi : nat) : M string :=
  if (hi <=? String.length s)%nat then ret (substring 0 hi s)
  else raise (SliceOutOfRange hi (String.length s)).

(** [l[i]] *)
Definition index {A} (l : list A) (i : nat) : M A :=
  match l !! i with
  | Some x => ret x
  | None => raise (IndexOutOfRange i (length l))
  end.

Definition bytes (s : string) : list N := N_of_ascii <$> list_ascii_of_string s.
Definition of_bytes (bs : list N) : string :=
  string_of_list_ascii (ascii_of_N <$> bs).

(** [unicode.IsSpace], on the UTF-8 encoding of one rune: tab, LF, VT,
    FF, CR, space, U+0085, U+00A0, U+1680, U+2000..U+200A, U+2028,
    U+2029, U+202F, U+205F, U+3000. *)
Definition isSpaceRune (bs : list N) : bool :=
  match bs with
  | [c] => ((9 <=? c) && (c <=? 13) || (c =? 32))%N
  | [a; b] => ((a =? 194) && ((b =? 133) || (b =? 160)))%N
  | [a; b; c] =>
      ((a =? 225) && (b =? 154) && (c =? 128)
       || (a =? 226) && (b =? 128)
          && ((128 <=? c) && (c <=? 138) || (c =? 168) || (c =? 169) || (c =? 175))
       || (a =? 226) && (b =? 129) && (c =? 159)
       || (a =? 227) && (b =? 128) && (c =? 128))%N
  | _ => false
  end.

(** Width of the white-space rune a byte sequence starts with (0: none). *)
Definition leadingSpace (bs : list N) : nat :=
  if isSpaceRune (take 1 bs) then 1
  else if isSpaceRune (take 2 bs) then 2
  else if isSpaceRune (take 3 bs) then 3
  else 0.

(** Width of the white-space rune a byte sequence ends with (0: none). *)
Definition trailingSpace (bs : list N) : nat :=
  let n := length bs in
  if isSpaceRune (drop (n - 1) bs) then 1
  else if isSpaceRune (drop (n - 2) bs) then 2
  else if isSpaceRune (drop (n - 3) bs) then 3
  else 0.

Fixpoint trimLeft (fuel : nat) (bs : list N) : list N :=
  match fuel with
  | O => bs
  | S fuel' =>
      match leadingSpace bs with
      | O => bs
      | w => trimLeft fuel' (drop w bs)
      end
  end.

Fixpoint trimRight (fuel : nat) (bs : list N) : list N :=
  match fuel with
  | O => bs
  | S fuel' =>
      match trailingSpace bs with
      | O => bs
      | w => trimRight fuel' (take (length bs - w) bs)
      end
  end.

(** [strings.TrimSpace]: all leading, then all trailing white space
    removed (a rune is at least one byte, so the length is fuel enough). *)
Definition TrimSpace (s : string) : string :=
  let l := trimLeft (String.length s) (bytes s) in
  of_bytes (trimRight (length l) l).

(** [strings.Split(s, sep)] for a one-byte separator: the pieces between
    the separators, one more than there are separators. *)
Fixpoint Split (s : string) (sep : ascii) : list string :=
  match s with
  | EmptyString => [""]
  | String c rest =>
      if Ascii.eqb c sep then "" :: Split rest sep
      else match Split rest sep with
           | piece :: pieces => String c piece :: pieces
           | [] => [String c ""]
           end
  end.

(** ** [internal/prompt] *)

Definition AnnotateCommitModel : string := "claude-sonnet-4-5-20250929".

Definition AnnotateCommit (hash message author date diff : string) : string * string :=
  let system :=
    "You are an expert code archaeologist and technical documentation specialist. Your task is to analyze git commits and generate clear, informative annotations that explain the technical significance of the changes." +:+ LF +:+
    LF +:+
    "Your annotations should:" +:+ LF +:+
    "1. Explain the technical purpose and impact of the changes" +:+ LF +:+
    "2. Identify what problem was solved or what feature was added" +:+ LF +:+
    "3. Note any architectural or design implications" +:+ LF +:+
    "4. Highlight important implementation details" +:+ LF +:+
    "5. Keep it concise but informative (2-5 sentences)" +:+ LF +:+
    "6. Use present tense and clear, professional language" +:+ LF +:+
    "7. Focus on the " +:+ DQ +:+ "why" +:+ DQ +:+ " and " +:+ DQ +:+ "impact" +:+ DQ +:+
      ", not just the " +:+ DQ +:+ "what" +:+ DQ +:+ LF +:+
    LF +:+
    "Format your annotation as a single paragraph without bullet points or markdown." in
  let user :=
    "Analyze this git commit and provide a technical annotation:" +:+ LF +:+
    LF +:+
    "Commit: " +:+ hash +:+ LF +:+
    "Author: " +:+ author +:+ LF +:+
    "Date: " +:+ date +:+ LF +:+
    "Message: " +:+ message +:+ LF +:+
    LF +:+
    "Changes:" +:+ LF +:+
    diff +:+ LF +:+
    LF +:+
    "Provide a technical annotation that explains the significance of these changes:" in
  (system, user).

(** ** [internal/cmd]: the annotate command *)

(** Counters and outcomes of the loop of [runAnnotate]. *)
Record LoopState : Type := mkLoop {
  st_annotated : Z;
  st_skipped : Z;
  st_failed : Z;
  st_results : list AnnotationResult
}.

Definition loop_init : LoopState := mkLoop 0 0 0 [].

Section Annotate.

Variable env : Env.

(** [cmd.Output()] of [exec.Command(name, args...)] *)
Definition Output (name : string) (args : list string) : M (string + error) :=
  emit (EvExec name args) ;;;
  ret (cmd_Output env name args).

(** The loop of [getCommits] over the lines of the log, at index [i].
    Every iteration adds 4 to [i], so the loop condition fails within
    [length lines] iterations: the fuel [getCommits] gives is never used
    up while the condition holds. *)
Fixpoint parseLoop (fuel : nat) (lines : list string) (i : nat) (commits : list Commit)
  : M (list Commit) :=
  match fuel with
  | O => ret commits
  | S fuel' =>
      if (i + 3 <=? length lines)%nat then
        l0 <- index lines i ;;
        if String.eqb l0 "" then ret commits
        else
          hash <- index lines i ;;
          author <- index lines (i + 1) ;;
          date <- index lines (i + 2) ;;
          message <- index lines (i + 3) ;;
          parseLoop fuel' lines (i + 4)
            (commits ++ [ {| Hash := hash; Author := author; Date := date; Message := message |} ])
      else ret commits
  end.

Definition parseLines (lines : list string) : M (list Commit) :=
  parseLoop (length lines) lines 0 [].

Definition getCommits (since : Z) (from to : string) : M (list Commit + error) :=
  let args := ["log"; "--format=%H%n%an <%ae>%n%ad%n%s"; "--no-merges"] in
  let args :=
    if negb (String.eqb from "") then args ++ [from +:+ ".." +:+ to]
    else args ++ ["-n" +:+ pretty since] in
  r <- Output "git" args ;;
  match r with
  | inr err => ret (inr (Errorf ("git log failed: " +:+ Error err)))
  | inl out =>
      let lines := Split (TrimSpace out) "010" in
      commits <- parseLines lines ;;
      ret (inl commits)
  end.

Definition getCommitDiff (hash : string) : M (string + error) :=
  r <- Output "git" ["show"; "--format="; hash] ;;
  match r with
  | inr err => ret (inr (Errorf ("git show failed: " +:+ Error err)))
  | inl out => ret (inl out)
  end.

(** [cmd.Run() == nil] of [git notes --ref ref show hash]: whether the
    repository holds a note for the commit under the ref. *)
Definition hasNote (hash ref : string) : M bool :=
  emit (EvExec "git" ["notes"; "--ref"; ref; "show"; hash]) ;;;
  n <- getNotes ;;
  ret (match n !! (ref, hash) with Some _ => true | None => false end).

(** When [git notes add] succeeds the note is in the repository; its
    failures (a note is already there and there is no [-f], no such
    object, no repository) are the environment's. *)
Definition addNote (hash ref note : string) : M (option error) :=
  emit (EvCreateTemp "arc-git-note-*.txt") ;;;
  match os_CreateTemp env "arc-git-note-*.txt" with
  | inr err => ret (Some (Errorf ("failed to create temp file: " +:+ Error err)))
  | inl tmpFile =>
      (* defer os.Remove(tmpFile.Name()) *)
      r <- match file_WriteString env tmpFile note with
           | Some err => ret (Some (Errorf ("failed to write note: " +:+ Error err)))
           | None =>
               let args := ["notes"; "--ref"; ref; "add"; "-F"; tmpFile; hash] in
               emit (EvExec "git" args) ;;;
               match cmd_CombinedOutput env "git" args with
               | Some (err, out) =>
                   ret (Some (Errorf ("git notes failed: " +:+ Error err +:+ LF +:+
                                      "Output: " +:+ out)))
               | None =>
                   n <- getNotes ;;
                   putNotes (<[(ref, hash) := note]> n) ;;;
                   ret None
               end
           end ;;
      emit (EvRemove tmpFile) ;;;
      ret r
  end.

(** The service is the one built from [cfg]. *)
Definition generateAnnotation (cfg : Config) (commit : Commit) (diff : string)
  : M (string + error) :=
  short <- slice_to (Hash commit) 7 ;;
  let '(systemPrompt, userPrompt) :=
    AnnotateCommit short (Message commit) (Author commit) (Date commit) diff in
  let opts := {| System := systemPrompt; Prompt := userPrompt; Model := AnnotateCommitModel |} in
  emit (EvServiceRun cfg opts) ;;;
  match service_Run env cfg opts with
  | inr err => ret (inr (Errorf ("AI request failed: " +:+ Error err)))
  | inl text => ret (inl (TrimSpace text))
  end.

(** [logProgress]: the arguments are evaluated by the caller, before the
    output mode is looked at. *)
Definition logProgress (out : OutputOptions) (format : string) (args : list PArg) : M unit :=
  if negb (Is out OutputQuiet) && negb (Is out OutputJSON) && negb (Is out OutputYAML)
  then emit (EvPrintf format args)
  else ret tt.

Section Loop.

Variables (cfg : Config) (dryRun force : bool) (out : OutputOptions).

(** One iteration of the loop over the commits: [i] is the index,
    [n] is [len(commits)]. *)
Definition processCommit (i n : nat) (commit : Commit) (st : LoopState) : M LoopState :=
  short <- slice_to (Hash commit) 7 ;;
  logProgress out (LF +:+ "[%d/%d] Processing %s" +:+ LF)
    [PInt (Z.of_nat i + 1); PInt (Z.of_nat n); PStr short] ;;;
  (* !force && hasNote(commit.Hash, "ai") *)
  noted <- (if negb force then hasNote (Hash commit) "ai" else ret false) ;;
  if noted then
    logProgress out ("  Already annotated (use --force to re-annotate)" +:+ LF) [] ;;;
    short <- slice_to (Hash commit) 7 ;;
    ret {| st_annotated := st_annotated st;
           st_skipped := st_skipped st + 1;
           st_failed := st_failed st;
           st_results := st_results st ++ [mkResult short "skipped" "already annotated" ""] |}
  else
    d <- getCommitDiff (Hash commit) ;;
    match d with
    | inr err =>
        logProgress out ("  Failed to get diff: %v" +:+ LF) [PStr (Error err)] ;;;
        short <- slice_to (Hash commit) 7 ;;
        ret {| st_annotated := st_annotated st;
               st_skipped := st_skipped st;
               st_failed := st_failed st + 1;
               st_results := st_results st ++
                 [mkResult short "failed" ("failed to get diff: " +:+ Error err) ""] |}
    | inl diff =>
        if (String.length diff =? 0)%nat then
          logProgress out ("  No diff (merge commit?), skipping" +:+ LF) [] ;;;
          short <- slice_to (Hash commit) 7 ;;
          ret {| st_annotated := st_annotated st;
                 st_skipped := st_skipped st + 1;
                 st_failed := st_failed st;
                 st_results := st_results st ++
                   [mkResult short "skipped" "no diff (merge commit?)" ""] |}
        else
          logProgress out ("  Generating AI annotation..." +:+ LF) [] ;;;
          g <- generateAnnotation cfg commit diff ;;
          match g with
          | inr err =>
              logProgress out ("  Failed to generate annotation: %v" +:+ LF) [PStr (Error err)] ;;;
              short <- slice_to (Hash commit) 7 ;;
              ret {| st_annotated := st_annotated st;
                     st_skipped := st_skipped st;
                     st_failed := st_failed st + 1;
                     st_results := st_results st ++
                       [mkResult short "failed"
                          ("failed to generate annotation: " +:+ Error err) ""] |}
          | inl annotation =>
              if dryRun then
                short <- slice_to (Hash commit) 7 ;;
                logProgress out (LF +:+ "--- Annotation for %s ---" +:+ LF +:+ "%s" +:+ LF)
                  [PStr short; PStr annotation] ;;;
                short <- slice_to (Hash commit) 7 ;;
                ret {| st_annotated := st_annotated st + 1;
                       st_skipped := st_skipped st;
                       st_failed := st_failed st;
                       st_results := st_results st ++ [mkResult short "preview" "" annotation] |}
              else
                a <- addNote (Hash commit) "ai" annotation ;;
                match a with
                | Some err =>
                    logProgress out ("  Failed to add note: %v" +:+ LF) [PStr (Error err)] ;;;
                    short <- slice_to (Hash commit) 7 ;;
                    ret {| st_annotated := st_annotated st;
                           st_skipped := st_skipped st;
                           st_failed := st_failed st + 1;
                           st_results := st_results st ++
                             [mkResult short "failed"
                                ("failed to add note: " +:+ Error err) ""] |}
                | None =>
                    logProgress out ("  Annotated successfully" +:+ LF) [] ;;;
                    short <- slice_to (Hash commit) 7 ;;
                    ret {| st_annotated := st_annotated st + 1;
                           st_skipped := st_skipped st;
                           st_failed := st_failed st;
                           st_results := st_results st ++ [mkResult short "success" "" annotation] |}
                end
          end
    end.

(** [for i, commit := range commits], from index [i] on. *)
Fixpoint processCommits (i n : nat) (commits : list Commit) (st : LoopState) : M LoopState :=
  match commits with
  | [] => ret st
  | commit :: rest =>
      st' <- processCommit i n commit st ;;
      processCommits (S i) n rest st'
  end.

End Loop.

(** The switch at the end of [runAnnotate] ("Output results"), for
    [n = len(commits)] and the counters and outcomes of the loop. *)
Definition outputResults (dryRun : bool) (out : OutputOptions) (n : nat) (st : LoopState)
  : M (option error) :=
  if Is out OutputJSON then
    let result :=
      {| total := Z.of_nat n;
         annotated := st_annotated st;
         skipped := st_skipped st;
         failed := st_failed st;
         dry_run := dryRun;
         results := st_results st |} in
    emit (EvEncodeJSON result) ;;;
    match json_Encode env result with
    | Some err =>
        ret (Some (CLIError ("failed to encode JSON: " +:+ Error err)
                            "Try --output table instead"))
    | None => ret None
    end
  else if Is out OutputQuiet then ret None
  else
    emit (EvPrintf (LF +:+ "=== Annotation Complete ===" +:+ LF) []) ;;;
    emit (EvPrintf ("Annotated: %d" +:+ LF) [PInt (st_annotated st)]) ;;;
    emit (EvPrintf ("Skipped: %d" +:+ LF) [PInt (st_skipped st)]) ;;;
    emit (EvPrintf ("Failed: %d" +:+ LF) [PInt (st_failed st)]) ;;;
    (if dryRun then
       emit (EvPrintln (LF +:+ "(Dry run - no notes were added)")) ;;;
       emit (EvPrintln "Run without --dry-run to save annotations")
     else
       emit (EvPrintln (LF +:+ "View annotations with: git log --show-notes=ai"))) ;;;
    ret None.

Definition runAnnotate (cfg : Config) (since : Z) (from to : string)
    (dryRun force : bool) (out : OutputOptions) : M (option error) :=
  logProgress out ("Starting git history annotation..." +:+ LF) [] ;;;
  r <- getCommits since from to ;;
  match r with
  | inr err => ret (Some (Errorf ("failed to get commits: " +:+ Error err)))
  | inl commits =>
      if (length commits =? 0)%nat then
        logProgress out ("No commits to annotate." +:+ LF) [] ;;;
        ret None
      else
        logProgress out ("Found %d commits to annotate" +:+ LF)
          [PInt (Z.of_nat (length commits))] ;;;
        emit (EvValidateConfig cfg) ;;;
        match ai_ValidateConfig env cfg with
        | Some err => ret (Some (Errorf ("invalid AI configuration: " +:+ Error err)))
        | None =>
            emit (EvNewClient cfg) ;;;
            match ai_NewClient env cfg with
            | Some err => ret (Some (Errorf ("failed to create AI client: " +:+ Error err)))
            | None =>
                st <- processCommits cfg dryRun force out 0 (length commits) commits loop_init ;;
                outputResults dryRun out (length commits) st
            end
        end
  end.

End Annotate.

(** [main]: the exit code of the process for what the command returned. *)
Definition exitCode (r : option error) : Z :=
  match r with
  | None => 0
  | Some _ => 1
  end.

(** ** [newAnnotateCmd]: the flags and [RunE] *)

(** The flags of the annotate command; the output flags are those of
    [outputOpts]. *)
Record Flags : Type := mkFlags {
  flag_since : Z;
  flag_from : string;
  flag_to : string;
  flag_provider : string;
  flag_model : string;
  flag_apiKey : string;
  flag_dryRun : bool;
  flag_force : bool
}.

(** The defaults [newAnnotateCmd] registers. *)
Definition defaultFlags : Flags :=
  {| flag_since := 10; flag_from := ""; flag_to := "HEAD";
     flag_provider := ""; flag_model := ""; flag_apiKey := "";
     flag_dryRun := false; flag_force := false |}.

(** [RunE] of the annotate command.  Modelled from the spec:
    [outputOpts.Resolve()] belongs to arc-sdk; [resolved] is what it
    leaves, the selected output mode or its error. *)
Definition RunE (env : Env) (aiCfg : Config) (fl : Flags) (resolved : OutputOptions + error)
  : M (option error) :=
  match resolved with
  | inr err => ret (Some err)
  | inl outputOpts =>
      (* cfg := *aiCfg *)
      let cfg := aiCfg in
      let cfg :=
        if negb (String.eqb (flag_provider fl) "")
        then {| Provider := flag_provider fl; APIKey := APIKey cfg;
                DefaultModel := DefaultModel cfg |}
        else cfg in
      let cfg :=
        if negb (String.eqb (flag_apiKey fl) "")
        then {| Provider := Provider cfg; APIKey := flag_apiKey fl;
                DefaultModel := DefaultModel cfg |}
        else cfg in
      let cfg :=
        if negb (String.eqb (flag_model fl) "")
        then {| Provider := Provider cfg; APIKey := APIKey cfg;
                DefaultModel := flag_model fl |}
        else cfg in
      runAnnotate env cfg (flag_since fl) (flag_from fl) (flag_to fl)
        (flag_dryRun fl) (flag_force fl) outputOpts
  end.

(** ** Scenarios: small repositories and collaborators to run the command on *)

Module Scenario.

Definition h1 : string := "1111111111111111111111111111111111111111".
Definition h2 : string := "2222222222222222222222222222222222222222".
Definition h3 : string := "3333333333333333333333333333333333333333".

Definition ann : string := "Ann <ann@example.org>".
Definition day : string := "Mon Jan 6 10:00:00 2025 +0000".

Definition c1 : Commit := {| Hash := h1; Message := "add parser"; Author := ann; Date := day |}.
Definition c2 : Commit := {| Hash := h2; Message := "fix lexer"; Author := ann; Date := day |}.
Definition c3 : Commit := {| Hash := h3; Message := "update docs"; Author := ann; Date := day |}.

(** What [git log --format=%H%n%an <%ae>%n%ad%n%s] prints for one commit. *)
Definition log_record (c : Commit) : string :=
  Hash c +:+ LF +:+ Author c +:+ LF +:+ Date c +:+ LF +:+ Message c +:+ LF.

Definition three_commits : string := log_record c1 +:+ log_record c2 +:+ log_record c3.

Definition one_commit : string := log_record c1.

(** The older commit was made with an empty message. *)
Definition empty_subject : Commit := {| Hash := h2; Message := ""; Author := ann; Date := day |}.
Definition empty_subject_log : string := log_record c1 +:+ log_record empty_subject.

Definition a_diff : string := "diff --git a/x b/x" +:+ LF +:+ "+x" +:+ LF.

Definition cfg : Config := {| Provider := "claude"; APIKey := "key"; DefaultModel := "" |}.

Definition an_answer : string := " Adds x to the parser. " +:+ LF.

(** A world given by the answers of git log, git show, the service,
    git notes add, the configuration check and the JSON encoder. *)
Definition world (log : string + error) (show : string -> string + error)
    (answer : RunOptions -> string + error) (add : option (error * string))
    (valid : option error) (encode : option error) : Env :=
  {| cmd_Output := fun name args =>
       match args with
       | "log" :: _ => log
       | ["show"; _; hash] => show hash
       | _ => inr (Errorf "exit status 1")
       end;
     cmd_CombinedOutput := fun _ _ => add;
     os_CreateTemp := fun _ => inl "/tmp/arc-git-note-1.txt";
     file_WriteString := fun _ _ => None;
     ai_ValidateConfig := fun _ => valid;
     ai_NewClient := fun _ => None;
     service_Run := fun _ => answer;
     json_Encode := fun _ => encode |}.

(** Everything works. *)
Definition healthy (log : string) : Env :=
  world (inl log) (fun _ => inl a_diff) (fun _ => inl an_answer) None None None.

(** Standard output is closed: the encoder cannot write. *)
Definition closed_stdout : Env :=
  world (inl three_commits) (fun _ => inl a_diff) (fun _ => inl an_answer) None None
    (Some (Errorf "write /dev/stdout: file already closed")).

(** The diff of the first commit cannot be read, the service refuses the
    second, and the note of the third cannot be added. *)
Definition flaky : Env :=
  world (inl three_commits)
    (fun hash => if String.eqb hash h1 then inr (Errorf "exit status 128") else inl a_diff)
    (fun opts =>
       if String.eqb (Prompt opts)
            (AnnotateCommit "2222222" (Message c2) (Author c2) (Date c2) a_diff).2
       then inr (Errorf "rate limited") else inl an_answer)
    (Some (Errorf "exit status 1", "error: unable to write note object" +:+ LF))
    None None.

(** Not a repository. *)
Definition no_repository : Env :=
  world (inr (Errorf "exit status 128")) (fun _ => inl a_diff) (fun _ => inl an_answer)
    None None None.

(** Nothing to annotate, and no API key configured. *)
Definition nothing_to_do : Env :=
  world (inl "") (fun _ => inl a_diff) (fun _ => inl an_answer) None
    (Some (Errorf "API key is required")) None.

(** The commit changes nothing. *)
Definition empty_commit : Env :=
  world (inl one_commit) (fun _ => inl "") (fun _ => inl an_answer) None None None.

(** The first commit already carries a note. *)
Definition annotated_c1 : Notes := {[ ("ai", h1) := "An older note." ]}.

(** Three commits with a short hash in the middle. *)
Definition short_hashed : list Commit :=
  [ c1; {| Hash := "abc"; Message := "fix lexer"; Author := ann; Date := day |}; c3 ].

End Scenario.

(** ** Vocabulary of the statements *)

(** The four lines one commit takes in the log. *)
Definition record_lines (c : Commit) : list string :=
  [Hash c; Author c; Date c; Message c].

Definition log_lines (cs : list Commit) : list string :=
  concat (record_lines <$> cs).

(** How one outcome moves the counters of the loop. *)
Definition outcome_counts (st st' : LoopState) (r : AnnotationResult) : Prop :=
  ((res_Status r = "success" \/ res_Status r = "preview") /\
   st_annotated st' = st_annotated st + 1 /\
   st_skipped st' = st_skipped st /\ st_failed st' = st_failed st)
  \/ (res_Status r = "skipped" /\
      st_annotated st' = st_annotated st /\
      st_skipped st' = st_skipped st + 1 /\ st_failed st' = st_failed st)
  \/ (res_Status r = "failed" /\
      st_annotated st' = st_annotated st /\
      st_skipped st' = st_skipped st /\ st_failed st' = st_failed st + 1).

(** Number of outcomes with a given status. *)
Definition count_status (status : string) (rs : list AnnotationResult) : Z :=
  Z.of_nat (length (filter (fun r => res_Status r = status) rs)).

(** The state of the loop after one more outcome. *)
Definition record_outcome (st : LoopState) (da ds df : Z) (r : AnnotationResult) : LoopState :=
  {| st_annotated := st_annotated st + da;
     st_skipped := st_skipped st + ds;
     st_failed := st_failed st + df;
     st_results := st_results st ++ [r] |}.

(** A run of the loop body over commit [c], from counters [st] and notes
    [s], that ends with the commit recorded as failed with [message], one
    more failure counted and the notes as they were. *)
Definition records_failure (step : result LoopState * Notes * list Event)
    (st : LoopState) (s : Notes) (c : Commit) (message : string) : Prop :=
  value step =
    Done {| st_annotated := st_annotated st;
            st_skipped := st_skipped st;
            st_failed := st_failed st + 1;
            st_results := st_results st ++
              [mkResult (substring 0 7 (Hash c)) "failed" message ""] |} /\
  notes_after step = s.

(** Text mode: neither quiet nor structured, the condition of [logProgress]. *)
Definition text_mode (out : OutputOptions) : bool :=
  negb (Is out OutputQuiet) && negb (Is out OutputJSON) && negb (Is out OutputYAML).

(** Events by kind. *)
Definition is_note_write (e : Event) : bool :=
  match e with
  | EvCreateTemp _ => true
  | EvExec _ ("notes" :: _ :: _ :: "add" :: _) => true
  | _ => false
  end.

Definition is_note_check (e : Event) : bool :=
  match e with
  | EvExec _ ("notes" :: _ :: _ :: "show" :: _) => true
  | _ => false
  end.

Definition is_encode (e : Event) : bool :=
  match e with
  | EvEncodeJSON _ => true
  | _ => false
  end.

Definition is_print (e : Event) : bool :=
  match e with
  | EvPrintf _ _ | EvPrintln _ => true
  | _ => false
  end.

Definition is_ai (e : Event) : bool :=
  match e with
  | EvValidateConfig _ | EvNewClient _ | EvServiceRun _ _ => true
  | _ => false
  end.

(** The two progress lines that show a commit hash. *)
Definition processing_format : string := LF +:+ "[%d/%d] Processing %s" +:+ LF.
Definition preview_format : string :=
  LF +:+ "--- Annotation for %s ---" +:+ LF +:+ "%s" +:+ LF.

(** An event that shows the hash of commit [c] shows its first 7 bytes. *)
Definition short_hash_event (c : Commit) (e : Event) : Prop :=
  match e with
  | EvPrintf format args =>
      (format = processing_format -> args !! 2%nat = Some (PStr (substring 0 7 (Hash c)))) /\
      (format = preview_format -> args !! 0%nat = Some (PStr (substring 0 7 (Hash c))))
  | EvServiceRun _ opts =>
      exists diff,
        (System opts, Prompt opts) =
        AnnotateCommit (substring 0 7 (Hash c)) (Message c) (Author c) (Date c) diff
  | _ => True
  end.

(** The request [generateAnnotation] sends for a commit and its diff. *)
Definition annotate_request (c : Commit) (diff : string) : RunOptions :=
  {| System := (AnnotateCommit (substring 0 7 (Hash c)) (Message c) (Author c) (Date c) diff).1;
     Prompt := (AnnotateCommit (substring 0 7 (Hash c)) (Message c) (Author c) (Date c) diff).2;
     Model := AnnotateCommitModel |}.

(** The arguments of the [git show] of a commit. *)
Definition show_args (c : Commit) : list string := ["show"; "--format="; Hash c].

(** Whether the repository holds a note of the command for a commit. *)
Definition noted (s : Notes) (c : Commit) : bool :=
  match s !! ("ai", Hash c) with Some _ => true | None => false end.

(** The arguments of the [git log] of the commit selector. *)
Definition log_args (since : Z) (from to : string) : list string :=
  ["log"; "--format=%H%n%an <%ae>%n%ad%n%s"; "--no-merges"] ++
  [if negb (String.eqb from "") then from +:+ ".." +:+ to else "-n" +:+ pretty since].

(** The progress line [logProgress] prints, if the mode prints one. *)
Definition progress (out : OutputOptions) (format : string) (args : list PArg) : list Event :=
  if text_mode out then [EvPrintf format args] else [].

(** The summary of a run over [n] commits that ended in state [st]. *)
Definition summary_of (dryRun : bool) (n : nat) (st : LoopState) : Summary :=
  {| total := Z.of_nat n;
     annotated := st_annotated st;
     skipped := st_skipped st;
     failed := st_failed st;
     dry_run := dryRun;
     results := st_results st |}.

(** The lines of the summary in text mode. *)
Definition text_summary (dryRun : bool) (st : LoopState) : list Event :=
  [ EvPrintf (LF +:+ "=== Annotation Complete ===" +:+ LF) [];
    EvPrintf ("Annotated: %d" +:+ LF) [PInt (st_annotated st)];
    EvPrintf ("Skipped: %d" +:+ LF) [PInt (st_skipped st)];
    EvPrintf ("Failed: %d" +:+ LF) [PInt (st_failed st)] ] ++
  (if dryRun then
     [ EvPrintln (LF +:+ "(Dry run - no notes were added)");
       EvPrintln "Run without --dry-run to save annotations" ]
   else [ EvPrintln (LF +:+ "View annotations with: git log --show-notes=ai") ]).

(** What the command has done before it enters the loop. *)
Definition prologue (cfg : Config) (since : Z) (from to : string) (out : OutputOptions)
    (n : nat) : list Event :=
  progress out ("Starting git history annotation..." +:+ LF) [] ++
  [EvExec "git" (log_args since from to)] ++
  progress out ("Found %d commits to annotate" +:+ LF) [PInt (Z.of_nat n)] ++
  [EvValidateConfig cfg; EvNewClient cfg].

(** Commit [c] gets through the loop of a dry run with the preview [r]:
    it passes the gate, its diff is not empty and the service answers
    with a text that is not blank. *)
Definition previews (env : Env) (cfg : Config) (force : bool) (s : Notes)
    (c : Commit) (r : AnnotationResult) : Prop :=
  (7 <= String.length (Hash c))%nat /\
  (force = true \/ noted s c = false) /\
  exists diff text,
    cmd_Output env "git" (show_args c) = inl diff /\
    String.length diff <> 0%nat /\
    service_Run env cfg (annotate_request c diff) = inl text /\
    TrimSpace text <> "" /\
    r = mkResult (substring 0 7 (Hash c)) "preview" "" (TrimSpace text).

(** What one iteration of the loop may do to the outside: print in text
    mode, read the diff, ask the service, look for a note unless forced,
    and write a note (through a temporary file) unless in dry-run mode. *)
Definition loop_event (dryRun force : bool) (out : OutputOptions) (e : Event) : bool :=
  match e with
  | EvPrintf _ _ => text_mode out
  | EvExec "git" ["show"; "--format="; _] => true
  | EvExec "git" ["notes"; "--ref"; "ai"; "show"; _] => negb force
  | EvExec "git" ["notes"; "--ref"; "ai"; "add"; "-F"; _; _] => negb dryRun
  | EvCreateTemp _ | EvRemove _ => negb dryRun
  | EvServiceRun _ _ => true
  | _ => false
  end.

(** A computation all of whose events satisfy [P] and whose value, when
    it returns one, satisfies [Q]. *)
Definition obeys {A} (P : Event -> Prop) (Q : A -> Prop) (m : M A) : Prop :=
  forall s, Forall P (events (m s)) /\ forall a, value (m s) = Done a -> Q a.

(** A computation none of whose events satisfies [p]. *)
Definition never {A} (p : Event -> bool) (m : M A) : Prop :=
  obeys (fun e => p e = false) (fun _ => True) m.

(** A computation that leaves the notes of the repository as they are. *)
Definition keeps_notes {A} (m : M A) : Prop :=
  forall s, notes_after (m s) = s.

(** A computation that does not panic. *)
Definition returns {A} (m : M A) : Prop :=
  forall s, exists a, value (m s) = Done a.

(** ** Vocabulary of the further properties *)

(** The configuration [RunE] hands to [runAnnotate]: each flag that is
    not empty replaces its field. *)
Definition effective (aiCfg : Config) (fl : Flags) : Config :=
  {| Provider := if String.eqb (flag_provider fl) "" then Provider aiCfg else flag_provider fl;
     APIKey := if String.eqb (flag_apiKey fl) "" then APIKey aiCfg else flag_apiKey fl;
     DefaultModel :=
       if String.eqb (flag_model fl) "" then DefaultModel aiCfg else flag_model fl |}.

(** The events a run of the command can consist of: progress and summary
    lines in the modes that print them, the four git invocations, the
    temporary file of a note, the configuration check, the client, the
    requests for the commits' diffs, the encoded summary. *)
Definition command_event (cfg : Config) (since : Z) (from to : string)
    (dryRun force : bool) (out : OutputOptions) (e : Event) : Prop :=
  match e with
  | EvPrintf _ _ => Is out OutputQuiet = false /\ Is out OutputJSON = false
  | EvPrintln _ => Is out OutputQuiet = false /\ Is out OutputJSON = false
  | EvExec name args =>
      name = "git" /\
      (args = log_args since from to \/
       (exists hash, args = ["show"; "--format="; hash]) \/
       (force = false /\ exists hash, args = ["notes"; "--ref"; "ai"; "show"; hash]) \/
       (dryRun = false /\
        exists file hash, args = ["notes"; "--ref"; "ai"; "add"; "-F"; file; hash]))
  | EvCreateTemp pattern => dryRun = false /\ pattern = "arc-git-note-*.txt"
  | EvRemove _ => dryRun = false
  | EvValidateConfig c => c = cfg
  | EvNewClient c => c = cfg
  | EvServiceRun c opts =>
      c = cfg /\ Model opts = AnnotateCommitModel /\
      exists commit diff, opts = annotate_request commit diff
  | EvEncodeJSON v => Is out OutputJSON = true /\ dry_run v = dryRun
  end.

(** The shape of an outcome: a success or a preview carries the
    annotation and no message, a skip or a failure a message and no
    annotation; success is for runs that write, preview for dry runs. *)
Definition outcome_shape (dryRun : bool) (r : AnnotationResult) : Prop :=
  (res_Status r = "success" /\ dryRun = false /\ res_Message r = "") \/
  (res_Status r = "preview" /\ dryRun = true /\ res_Message r = "") \/
  (res_Status r = "skipped" /\ res_Annotation r = "" /\
   (res_Message r = "already annotated" \/ res_Message r = "no diff (merge commit?)")) \/
  (res_Status r = "failed" /\ res_Annotation r = "" /\
   exists reason,
     res_Message r = "failed to get diff: " +:+ reason \/
     res_Message r = "failed to generate annotation: " +:+ reason \/
     res_Message r = "failed to add note: " +:+ reason).

(** What an outcome of commit [c] means for the notes: a success has put
    the reported annotation under the ref of the command, anything else
    has left the notes alone. *)
Definition notes_with (s : Notes) (c : Commit) (r : AnnotationResult) : Notes :=
  if String.eqb (res_Status r) "success"
  then <[("ai", Hash c) := res_Annotation r]> s
  else s.

Fixpoint notes_with_all (s : Notes) (commits : list Commit) (rs : list AnnotationResult)
  : Notes :=
  match commits, rs with
  | c :: commits', r :: rs' => notes_with_all (notes_with s c r) commits' rs'
  | _, _ => s
  end.

(** The outcome of a commit the gate stops. *)
Definition already_annotated (c : Commit) : AnnotationResult :=
  mkResult (substring 0 7 (Hash c)) "skipped" "already annotated" "".

(** Notes that differ at most at the keys in [K]. *)
Definition same_outside (K : string * string -> Prop) (s s' : Notes) : Prop :=
  forall k, ~ K k -> s' !! k = s !! k.

(** A computation that changes the notes at most at the keys in [K],
    and removes none. *)
Definition touches_only {A} (K : string * string -> Prop) (m : M A) : Prop :=
  forall s,
    same_outside K s (notes_after (m s)) /\
    forall k, is_Some (s !! k) -> is_Some (notes_after (m s) !! k).

(** What [git log] prints for lines of output: every line ended by a
    line feed. *)
Definition unlines (lines : list string) : string :=
  foldr (fun l acc => l +:+ LF +:+ acc) "" lines.

(** The lines with a line feed between them and none at the end. *)
Fixpoint joined (lines : list string) : string :=
  match lines with
  | [] => ""
  | [l] => l
  | l :: ls => l +:+ LF +:+ joined ls
  end.

(** A string that holds no line feed. *)
Definition no_LF (s : string) : bool :=
  forallb (fun a => negb (Ascii.eqb a "010")) (list_ascii_of_string s).

(** What a computation does apart from printing. *)
Definition unprinted (evs : list Event) : list Event :=
  List.filter (fun e => negb (is_print e)) evs.

(** Two computations that differ at most in what they print. *)
Definition same_but_prints {A} (m1 m2 : M A) : Prop :=
  forall s,
    value (m1 s) = value (m2 s) /\
    notes_after (m1 s) = notes_after (m2 s) /\
    unprinted (events (m1 s)) = unprinted (events (m2 s)).

(** ** The monad *)

Lemma substring_prefix_length s n :
  (n <= String.length s)%nat -> String.length (substring 0 n s) = n.
Proof.
  revert n. induction s as [|c s IH]; intros [|n] H; simpl in *; try done; try lia.
  f_equal. apply IH. lia.
Qed.

Arguments String.append : simpl never.
Arguments substring : simpl never.
Arguments String.length : simpl never.
Arguments pretty : simpl never.
Arguments TrimSpace : simpl never.
Arguments Split : simpl never.

Lemma bind_Done {A B} (m : M A) (k : A -> M B) s a s1 e1 :
  m s = (Done a, s1, e1) ->
  bind m k s = (value (k a s1), notes_after (k a s1), e1 ++ events (k a s1)).
Proof.
  intros H. unfold bind, value, notes_after, events. rewrite H.
  by destruct (k a s1) as [[r s2] e2].
Qed.

Lemma bind_Panicked {A B} (m : M A) (k : A -> M B) s p s1 e1 :
  m s = (Panicked p, s1, e1) -> bind m k s = (Panicked p, s1, e1).
Proof. intros H. unfold bind. by rewrite H. Qed.

Lemma bind_ret {A B} (a : A) (k : A -> M B) s : bind (ret a) k s = k a s.
Proof. unfold bind, ret. by destruct (k a s) as [[r s2] e2]. Qed.

Lemma run_eta {A} (x : result A * Notes * list Event) :
  x = (value x, notes_after x, events x).
Proof. by destruct x as [[r s] e]. Qed.

Lemma value_bind {A B} (m : M A) (k : A -> M B) s :
  value (bind m k s) =
  match value (m s) with
  | Done a => value (k a (notes_after (m s)))
  | Panicked p => Panicked p
  end.
Proof.
  unfold bind, value, notes_after.
  destruct (m s) as [[[a|q] s1] e1]; simpl; [|done]. by destruct (k a s1) as [[r s2] e2].
Qed.

Lemma notes_bind {A B} (m : M A) (k : A -> M B) s :
  notes_after (bind m k s) =
  match value (m s) with
  | Done a => notes_after (k a (notes_after (m s)))
  | Panicked p => notes_after (m s)
  end.
Proof.
  unfold bind, value, notes_after.
  destruct (m s) as [[[a|q] s1] e1]; simpl; [|done]. by destruct (k a s1) as [[r s2] e2].
Qed.

Lemma events_bind {A B} (m : M A) (k : A -> M B) s :
  events (bind m k s) =
  events (m s) ++
  match value (m s) with
  | Done a => events (k a (notes_after (m s)))
  | Panicked p => []
  end.
Proof.
  unfold bind, value, notes_after, events.
  destruct (m s) as [[[a|q] s1] e1]; simpl; [|by rewrite app_nil_r].
  by destruct (k a s1) as [[r s2] e2].
Qed.

Lemma obeys_ret {A} (P : Event -> Prop) (Q : A -> Prop) a : Q a -> obeys P Q (ret a).
Proof. intros H s. split; [constructor|]. intros a' [= <-]. done. Qed.

Lemma obeys_raise {A} (P : Event -> Prop) (Q : A -> Prop) q : obeys P Q (raise q).
Proof. intros s. split; [constructor|]. intros a' [=]. Qed.

Lemma obeys_emit (P : Event -> Prop) (Q : unit -> Prop) e : P e -> Q tt -> obeys P Q (emit e).
Proof. intros H HQ s. split; [by repeat constructor|]. by intros [] _. Qed.

Lemma obeys_getNotes (P : Event -> Prop) (Q : Notes -> Prop) : (forall n, Q n) -> obeys P Q getNotes.
Proof. intros H s. split; [constructor|]. intros a _. apply H. Qed.

Lemma obeys_putNotes (P : Event -> Prop) (Q : unit -> Prop) n : Q tt -> obeys P Q (putNotes n).
Proof. intros H s. split; [constructor|]. by intros [] _. Qed.

Lemma obeys_bind {A B} (P : Event -> Prop) (Q1 : A -> Prop) (Q : B -> Prop) (m : M A) (k : A -> M B) :
  obeys P Q1 m -> (forall a, Q1 a -> obeys P Q (k a)) -> obeys P Q (bind m k).
Proof.
  intros Hm Hk s. destruct (Hm s) as [He Hv].
  rewrite events_bind, value_bind.
  destruct (value (m s)) as [a|q]; [|split; [by rewrite app_nil_r|done]].
  destruct (Hk a (Hv a eq_refl) (notes_after (m s))) as [He2 Hv2].
  split; [by apply Forall_app|done].
Qed.

Lemma obeys_bind_emit {B} (P : Event -> Prop) (Q : B -> Prop) e (k : unit -> M B) :
  P e -> obeys P Q (k tt) -> obeys P Q (bind (emit e) k).
Proof.
  intros He Hk. apply (obeys_bind P (fun _ => True)); [by apply obeys_emit|].
  by intros [] _.
Qed.

Lemma obeys_bind_ret {A B} (P : Event -> Prop) (Q : B -> Prop) (a : A) (k : A -> M B) :
  obeys P Q (k a) -> obeys P Q (bind (ret a) k).
Proof. intros Hk s. rewrite bind_ret. apply Hk. Qed.

Lemma obeys_bind_getNotes {B} (P : Event -> Prop) (Q : B -> Prop) (k : Notes -> M B) :
  (forall n, obeys P Q (k n)) -> obeys P Q (bind getNotes k).
Proof.
  intros Hk. apply (obeys_bind P (fun _ => True)); [by apply obeys_getNotes|]. auto.
Qed.

Lemma obeys_bind_putNotes {B} (P : Event -> Prop) (Q : B -> Prop) n (k : unit -> M B) :
  obeys P Q (k tt) -> obeys P Q (bind (putNotes n) k).
Proof.
  intros Hk. apply (obeys_bind P (fun _ => True)); [by apply obeys_putNotes|].
  by intros [] _.
Qed.

Lemma obeys_weaken {A} (P P' : Event -> Prop) (Q Q' : A -> Prop) (m : M A) :
  obeys P Q m -> (forall e, P e -> P' e) -> (forall a, Q a -> Q' a) -> obeys P' Q' m.
Proof.
  intros H HP HQ s. destruct (H s) as [He Hv]. split; [|by auto].
  eapply Forall_impl; eauto.
Qed.

Lemma returns_ret {A} (a : A) : returns (ret a).
Proof. intros s. by exists a. Qed.

Lemma returns_emit e : returns (emit e).
Proof. intros s. by exists tt. Qed.

Lemma returns_getNotes : returns getNotes.
Proof. intros s. by exists s. Qed.

Lemma returns_putNotes n : returns (putNotes n).
Proof. intros s. by exists tt. Qed.

Lemma returns_bind {A B} (m : M A) (k : A -> M B) :
  returns m -> (forall a, returns (k a)) -> returns (bind m k).
Proof.
  intros Hm Hk s. destruct (Hm s) as [a Ha]. rewrite value_bind, Ha. apply Hk.
Qed.

Lemma keeps_ret {A} (a : A) : keeps_notes (ret a).
Proof. done. Qed.

Lemma keeps_raise {A} q : keeps_notes (@raise A q).
Proof. done. Qed.

Lemma keeps_emit e : keeps_notes (emit e).
Proof. done. Qed.

Lemma keeps_getNotes : keeps_notes getNotes.
Proof. done. Qed.

Lemma keeps_bind {A B} (m : M A) (k : A -> M B) :
  keeps_notes m -> (forall a, keeps_notes (k a)) -> keeps_notes (bind m k).
Proof.
  intros Hm Hk s. specialize (Hm s). unfold keeps_notes, bind, notes_after in *.
  destruct (m s) as [[[a|q] s1] e1]; simpl in *; [|done].
  specialize (Hk a s1). destruct (k a s1) as [[r s2] e2]; simpl in *. congruence.
Qed.

Create HintDb go discriminated.

#[export] Hint Resolve keeps_ret keeps_raise keeps_emit keeps_getNotes
  returns_ret returns_emit returns_getNotes returns_putNotes : go.

(** Structural proofs: follow the program, one rule per construct; the
    facts about the functions called come from the hint database. *)
Ltac walk :=
  repeat first
    [ solve [auto with go]
    | apply obeys_ret; try done | apply obeys_raise
    | apply obeys_getNotes; try done | apply obeys_putNotes; try done
    | apply obeys_emit; [first [assumption | reflexivity | exact I | eauto] | try done]
    | apply obeys_bind_emit; [first [assumption | reflexivity | exact I | eauto] |]
    | apply obeys_bind_ret
    | apply obeys_bind_getNotes; intros ?
    | apply obeys_bind_putNotes
    | eapply (obeys_bind _ (fun _ => True)); [|intros ? _]
    | apply keeps_bind; [|intros ?]
    | apply returns_bind; [|intros ?]
    | case_match ].

Lemma slice_to_ok s hi :
  (hi <= String.length s)%nat -> slice_to s hi = ret (substring 0 hi s).
Proof. intros H. unfold slice_to. apply Nat.leb_le in H. by rewrite H. Qed.

Lemma slice_to_short s hi :
  (String.length s < hi)%nat -> slice_to s hi = raise (SliceOutOfRange hi (String.length s)).
Proof. intros H. unfold slice_to. apply Nat.leb_gt in H. by rewrite H. Qed.

Lemma obeys_slice_to (P : Event -> Prop) s hi :
  obeys P (fun x => x = substring 0 hi s /\ (hi <= String.length s)%nat) (slice_to s hi).
Proof.
  unfold slice_to. destruct (Nat.leb_spec hi (String.length s)); [by apply obeys_ret|].
  apply obeys_raise.
Qed.

Lemma keeps_slice_to s hi : keeps_notes (slice_to s hi).
Proof. unfold slice_to. walk. Qed.

Lemma returns_slice_to s hi : (hi <= String.length s)%nat -> returns (slice_to s hi).
Proof. intros H. rewrite slice_to_ok by done. walk. Qed.

Lemma obeys_index {A} (P : Event -> Prop) (l : list A) i : obeys P (fun _ => True) (index l i).
Proof. unfold index. walk. Qed.

Lemma keeps_index {A} (l : list A) i : keeps_notes (index l i).
Proof. unfold index. walk. Qed.

#[export] Hint Resolve keeps_slice_to keeps_index returns_slice_to : go.

(** ** The commit selector *)

Lemma bind_ext {A B} (m : M A) (k1 k2 : A -> M B) s :
  (forall a s1, k1 a s1 = k2 a s1) -> bind m k1 s = bind m k2 s.
Proof.
  intros H. unfold bind. destruct (m s) as [[[a|q] s1] e1]; [|done]. by rewrite H.
Qed.

Lemma index_Some {A} (l : list A) i x : l !! i = Some x -> index l i = ret x.
Proof. intros H. unfold index. by rewrite H. Qed.

Lemma index_None {A} (l : list A) i :
  l !! i = None -> index l i = raise (IndexOutOfRange i (length l)).
Proof. intros H. unfold index. by rewrite H. Qed.

Lemma parseLoop_stop_short fuel lines i acc s :
  (length lines < i + 3)%nat -> parseLoop fuel lines i acc s = (Done acc, s, []).
Proof.
  intros H. apply Nat.leb_gt in H. destruct fuel; simpl; [done|]. by rewrite H.
Qed.

Lemma parseLoop_stop_blank fuel lines i acc s :
  lines !! i = Some "" -> parseLoop fuel lines i acc s = (Done acc, s, []).
Proof.
  intros H. destruct fuel; simpl; [done|].
  case_match; [|done]. by rewrite (index_Some _ _ _ H), bind_ret.
Qed.

Lemma parseLoop_step fuel lines i acc s hash author date message :
  hash <> "" ->
  lines !! i = Some hash -> lines !! (i + 1)%nat = Some author ->
  lines !! (i + 2)%nat = Some date -> lines !! (i + 3)%nat = Some message ->
  parseLoop (S fuel) lines i acc s =
  parseLoop fuel lines (i + 4)
    (acc ++ [ {| Hash := hash; Message := message; Author := author; Date := date |} ]) s.
Proof.
  intros Hne H0 H1 H2 H3. simpl.
  assert (i + 3 < length lines)%nat as Hlt by (by apply lookup_lt_Some in H3).
  assert ((i + 3 <=? length lines)%nat = true) as -> by (apply Nat.leb_le; lia).
  rewrite (index_Some _ _ _ H0), bind_ret.
  apply String.eqb_neq in Hne. rewrite Hne.
  rewrite bind_ret, (index_Some _ _ _ H1), bind_ret.
  by rewrite (index_Some _ _ _ H2), bind_ret, (index_Some _ _ _ H3), bind_ret.
Qed.

Lemma parseLoop_panic fuel lines i acc s hash :
  hash <> "" -> lines !! i = Some hash -> (i + 3)%nat = length lines ->
  parseLoop (S fuel) lines i acc s =
  (Panicked (IndexOutOfRange (i + 3) (length lines)), s, []).
Proof.
  intros Hne H0 Hlen. simpl.
  assert ((i + 3 <=? length lines)%nat = true) as -> by (apply Nat.leb_le; lia).
  rewrite (index_Some _ _ _ H0), bind_ret.
  apply String.eqb_neq in Hne. rewrite Hne, bind_ret.
  destruct (lookup_lt_is_Some_2 lines (i + 1)) as [a Ha]; [lia|].
  destruct (lookup_lt_is_Some_2 lines (i + 2)) as [d Hd]; [lia|].
  rewrite (index_Some _ _ _ Ha), bind_ret, (index_Some _ _ _ Hd), bind_ret.
  rewrite index_None by (apply lookup_ge_None; lia). done.
Qed.

(** The fuel is only a bound: any two that outlast the loop condition
    give the same run. *)
Lemma parseLoop_fuel f1 : forall f2 lines i acc s,
  (length lines < i + 4 * f1 + 3)%nat -> (length lines < i + 4 * f2 + 3)%nat ->
  parseLoop f1 lines i acc s = parseLoop f2 lines i acc s.
Proof.
  induction f1 as [|f1 IH]; intros f2 lines i acc s H1 H2.
  - rewrite !parseLoop_stop_short; [done|lia|lia].
  - destruct f2 as [|f2]; [rewrite !parseLoop_stop_short; [done|lia|lia]|].
    simpl. case_match; [|done].
    apply bind_ext. intros l0 s1. case_match; [done|].
    do 4 (apply bind_ext; intros ? ?). apply IH; lia.
Qed.

Lemma length_log_lines cs : length (log_lines cs) = (4 * length cs)%nat.
Proof.
  induction cs as [|c cs IH]; [done|].
  change (log_lines (c :: cs)) with (record_lines c ++ log_lines cs).
  rewrite length_app, IH. simpl. lia.
Qed.

Lemma parseLoop_records cs : forall pre tail acc fuel s,
  Forall (fun c => Hash c <> "") cs ->
  parseLoop (length cs + fuel) (pre ++ log_lines cs ++ tail) (length pre) acc s =
  parseLoop fuel (pre ++ log_lines cs ++ tail) (length pre + 4 * length cs) (acc ++ cs) s.
Proof.
  induction cs as [|c cs IH]; intros pre tail acc fuel s Hcs.
  - simpl. by rewrite Nat.add_0_r, app_nil_r.
  - apply Forall_cons in Hcs as [Hc Hcs].
    change (log_lines (c :: cs)) with (record_lines c ++ log_lines cs).
    change (length (c :: cs) + fuel)%nat with (S (length cs + fuel)).
    rewrite (parseLoop_step _ _ _ _ _ (Hash c) (Author c) (Date c) (Message c)); [|done|..].
    + replace (pre ++ (record_lines c ++ log_lines cs) ++ tail)
        with ((pre ++ record_lines c) ++ log_lines cs ++ tail) by (by rewrite <- !app_assoc).
      replace (length pre + 4)%nat with (length (pre ++ record_lines c))
        by (rewrite length_app; done).
      rewrite IH by done. rewrite length_app. simpl length.
      destruct c. simpl. rewrite <- (app_assoc acc). simpl. f_equal. lia.
    + rewrite lookup_app_r by lia. by rewrite Nat.sub_diag.
    + rewrite lookup_app_r by lia. by replace (length pre + 1 - length pre)%nat with 1%nat by lia.
    + rewrite lookup_app_r by lia. by replace (length pre + 2 - length pre)%nat with 2%nat by lia.
    + rewrite lookup_app_r by lia. by replace (length pre + 3 - length pre)%nat with 3%nat by lia.
Qed.

(** Complete records followed by at most two lines, or by a record whose
    hash line is blank: the complete records are returned. *)
Lemma parseLines_truncates cs tail s :
  Forall (fun c => Hash c <> "") cs ->
  (length tail < 3)%nat \/ head tail = Some "" ->
  parseLines (log_lines cs ++ tail) s = (Done cs, s, []).
Proof.
  intros Hcs Htail. unfold parseLines.
  rewrite length_app, length_log_lines.
  replace (4 * length cs + length tail)%nat
    with (length cs + (3 * length cs + length tail))%nat by lia.
  pose proof (parseLoop_records cs [] tail [] (3 * length cs + length tail) s Hcs) as H.
  cbn [app length Nat.add] in H. rewrite H. clear H.
  destruct Htail as [Hshort | Hblank].
  - apply parseLoop_stop_short. rewrite length_app, length_log_lines. lia.
  - apply parseLoop_stop_blank. destruct tail as [|t tail]; [done|].
    simpl in Hblank. simplify_eq.
    rewrite lookup_app_r by (rewrite length_log_lines; lia).
    rewrite length_log_lines. by replace (_ - _)%nat with 0%nat by lia.
Qed.

(** Complete records followed by exactly three lines, the first not
    blank: the loop condition [i+3 <= len(lines)] holds and [lines[i+3]]
    is out of range. *)
Lemma parseLines_panics cs hash author date s :
  Forall (fun c => Hash c <> "") cs ->
  hash <> "" ->
  parseLines (log_lines cs ++ [hash; author; date]) s =
  (Panicked (IndexOutOfRange (4 * length cs + 3) (4 * length cs + 3)), s, []).
Proof.
  intros Hcs Hne. unfold parseLines.
  rewrite length_app, length_log_lines. simpl length.
  replace (4 * length cs + 3)%nat with (length cs + S (3 * length cs + 2))%nat at 1 by lia.
  pose proof (parseLoop_records cs [] [hash; author; date] []
                (S (3 * length cs + 2)) s Hcs) as H.
  cbn [app length Nat.add] in H. rewrite H. clear H.
  rewrite (parseLoop_panic _ _ _ _ _ hash Hne).
  - rewrite length_app, length_log_lines. simpl. do 3 f_equal; lia.
  - rewrite lookup_app_r by (rewrite length_log_lines; lia).
    rewrite length_log_lines. by replace (_ - _)%nat with 0%nat by lia.
  - rewrite length_app, length_log_lines. simpl. lia.
Qed.

Lemma keeps_parseLoop fuel : forall lines i acc, keeps_notes (parseLoop fuel lines i acc).
Proof.
  induction fuel as [|fuel IH]; intros lines i acc; simpl; walk.
Qed.

#[export] Hint Resolve keeps_parseLoop : go.

(** The length of the input is fuel enough for [TrimSpace]: what
    [trimLeft] returns starts with no white space, what [trimRight]
    returns ends with none. *)
Lemma trimLeft_done fuel : forall bs,
  (length bs <= fuel)%nat -> leadingSpace (trimLeft fuel bs) = 0%nat.
Proof.
  induction fuel as [|fuel IH]; intros bs H.
  - by destruct bs; [|simpl in H; lia].
  - simpl. destruct (leadingSpace bs) as [|w] eqn:E; [done|].
    apply IH. rewrite length_drop. lia.
Qed.

Lemma trimRight_done fuel : forall bs,
  (length bs <= fuel)%nat -> trailingSpace (trimRight fuel bs) = 0%nat.
Proof.
  induction fuel as [|fuel IH]; intros bs H.
  - by destruct bs; [|simpl in H; lia].
  - simpl. destruct (trailingSpace bs) as [|w] eqn:E; [done|].
    apply IH. rewrite length_take. lia.
Qed.

(** The length of the log is fuel enough for the loop of [getCommits]. *)
Lemma parseLines_fuel fuel lines s :
  (length lines <= fuel)%nat -> parseLoop fuel lines 0 [] s = parseLines lines s.
Proof. intros H. unfold parseLines. apply parseLoop_fuel; lia. Qed.

(** ** The wrappers around the collaborators *)

Lemma keeps_logProgress out format args : keeps_notes (logProgress out format args).
Proof. unfold logProgress. walk. Qed.

Lemma returns_logProgress out format args : returns (logProgress out format args).
Proof. unfold logProgress. walk. Qed.

Lemma obeys_logProgress (P : Event -> Prop) out format args :
  (text_mode out = true -> P (EvPrintf format args)) ->
  obeys P (fun _ => True) (logProgress out format args).
Proof.
  intros H. unfold logProgress. fold (text_mode out).
  destruct (text_mode out); [|by apply obeys_ret]. apply obeys_emit; auto.
Qed.

Lemma keeps_Output env name args : keeps_notes (Output env name args).
Proof. unfold Output. walk. Qed.

Lemma returns_Output env name args : returns (Output env name args).
Proof. unfold Output. walk. Qed.

#[export] Hint Resolve keeps_logProgress returns_logProgress keeps_Output returns_Output : go.

Lemma keeps_getCommitDiff env hash : keeps_notes (getCommitDiff env hash).
Proof. unfold getCommitDiff. walk. Qed.

Lemma returns_getCommitDiff env hash : returns (getCommitDiff env hash).
Proof. unfold getCommitDiff. walk. Qed.

Lemma keeps_hasNote hash ref : keeps_notes (hasNote hash ref).
Proof. unfold hasNote. walk. Qed.

Lemma returns_hasNote hash ref : returns (hasNote hash ref).
Proof. unfold hasNote. walk. Qed.

Lemma returns_addNote env hash ref note : returns (addNote env hash ref note).
Proof. unfold addNote. walk. Qed.

Lemma keeps_generateAnnotation env cfg commit diff :
  keeps_notes (generateAnnotation env cfg commit diff).
Proof. unfold generateAnnotation. walk. Qed.

Lemma returns_generateAnnotation env cfg commit diff :
  (7 <= String.length (Hash commit))%nat ->
  returns (generateAnnotation env cfg commit diff).
Proof. intros H. unfold generateAnnotation. walk. Qed.

Lemma keeps_getCommits env since from to : keeps_notes (getCommits env since from to).
Proof. unfold getCommits, parseLines. walk. Qed.

#[export] Hint Resolve keeps_getCommitDiff returns_getCommitDiff keeps_hasNote
  returns_hasNote returns_addNote keeps_generateAnnotation returns_generateAnnotation
  keeps_getCommits : go.

Lemma value_getCommitDiff env hash s :
  value (getCommitDiff env hash s) =
  Done match cmd_Output env "git" ["show"; "--format="; hash] with
       | inl out => inl out
       | inr err => inr (Errorf ("git show failed: " +:+ Error err))
       end.
Proof.
  unfold getCommitDiff, Output, bind, emit, ret, value. simpl.
  by destruct (cmd_Output env _ _).
Qed.


Lemma obeys_Output (P : Event -> Prop) env name args :
  P (EvExec name args) -> obeys P (fun _ => True) (Output env name args).
Proof. intros H. unfold Output. walk. Qed.

Lemma obeys_getCommitDiff (P : Event -> Prop) env hash :
  P (EvExec "git" ["show"; "--format="; hash]) ->
  obeys P (fun _ => True) (getCommitDiff env hash).
Proof.
  intros H. unfold getCommitDiff.
  eapply obeys_bind; [by apply obeys_Output|]. intros r _. walk.
Qed.

Lemma obeys_hasNote (P : Event -> Prop) hash ref :
  P (EvExec "git" ["notes"; "--ref"; ref; "show"; hash]) ->
  obeys P (fun _ => True) (hasNote hash ref).
Proof. intros H. unfold hasNote. walk. Qed.

Lemma obeys_addNote (P : Event -> Prop) env hash ref note :
  (forall pattern, P (EvCreateTemp pattern)) ->
  (forall file, P (EvExec "git" ["notes"; "--ref"; ref; "add"; "-F"; file; hash])) ->
  (forall file, P (EvRemove file)) ->
  obeys P (fun _ => True) (addNote env hash ref note).
Proof. intros H1 H2 H3. unfold addNote. walk. Qed.

Lemma obeys_generateAnnotation (P : Event -> Prop) env cfg commit diff :
  (forall opts,
     (System opts, Prompt opts) =
       AnnotateCommit (substring 0 7 (Hash commit)) (Message commit) (Author commit)
         (Date commit) diff ->
     P (EvServiceRun cfg opts)) ->
  obeys P (fun _ => True) (generateAnnotation env cfg commit diff).
Proof.
  intros H. unfold generateAnnotation.
  eapply obeys_bind; [apply obeys_slice_to|]. intros short [-> _].
  unfold AnnotateCommit in *. walk.
Qed.

(** ** One iteration of the loop *)

(** The rule for a call inside [processCommit], by the function called. *)
Ltac call_rule :=
  first
    [ apply obeys_slice_to
    | apply obeys_logProgress; intros ?
    | apply obeys_hasNote
    | apply obeys_getCommitDiff
    | apply obeys_generateAnnotation; intros ? ?
    | apply obeys_addNote; intros ].

Ltac walk_commit :=
  unfold processCommit;
  repeat first
    [ apply obeys_ret
    | apply obeys_bind_ret
    | eapply obeys_bind; [call_rule | intros ? ?]
    | case_match ].

(** Every way out of the loop body that returns has recorded exactly one
    outcome, for this commit, and moved exactly one counter. *)
Lemma processCommit_outcome env cfg dryRun force out i n c st :
  obeys (fun _ => True)
    (fun st' => exists r, st_results st' = st_results st ++ [r] /\
                          res_Hash r = substring 0 7 (Hash c) /\
                          String.length (res_Hash r) = 7%nat /\
                          outcome_counts st st' r)
    (processCommit env cfg dryRun force out i n c st).
Proof.
  walk_commit; try exact I.
  all: cbv beta in *; repeat match goal with H : _ /\ _ |- _ => destruct H end; subst.
  all: eexists; split; [reflexivity|]; split; [reflexivity|].
  all: split; [by apply substring_prefix_length|].
  all: unfold outcome_counts; simpl; auto 10.
Qed.

Lemma processCommit_short env cfg dryRun force out i n c st s :
  (String.length (Hash c) < 7)%nat ->
  processCommit env cfg dryRun force out i n c st s =
  (Panicked (SliceOutOfRange 7 (String.length (Hash c))), s, []).
Proof. intros H. unfold processCommit. by rewrite slice_to_short. Qed.

Lemma returns_processCommit env cfg dryRun force out i n c st :
  (7 <= String.length (Hash c))%nat ->
  returns (processCommit env cfg dryRun force out i n c st).
Proof. intros H. unfold processCommit. walk. Qed.

Lemma processCommit_events env cfg dryRun force out i n c st :
  obeys (short_hash_event c) (fun _ => True)
    (processCommit env cfg dryRun force out i n c st).
Proof.
  walk_commit; try exact I.
  all: cbv beta in *; repeat match goal with H : _ /\ _ |- _ => destruct H end; subst.
  all: try (split; intros Hf; first [reflexivity | by vm_compute in Hf]).
  all: try by eexists.
Qed.

Lemma processCommit_footprint env cfg dryRun force out i n c st :
  obeys (fun e => loop_event dryRun force out e = true) (fun _ => True)
    (processCommit env cfg dryRun force out i n c st).
Proof. destruct dryRun, force; walk_commit; done. Qed.

Lemma keeps_processCommit_dry env cfg force out i n c st :
  keeps_notes (processCommit env cfg true force out i n c st).
Proof. unfold processCommit. walk. Qed.

(** ** The loop *)

Section LoopFacts.

Variables (env : Env) (cfg : Config) (dryRun force : bool) (out : OutputOptions).

Lemma processCommits_events (P : Event -> Prop) commits : forall i n st,
  (forall i c st, c ∈ commits ->
     obeys P (fun _ => True) (processCommit env cfg dryRun force out i n c st)) ->
  obeys P (fun _ => True) (processCommits env cfg dryRun force out i n commits st).
Proof.
  induction commits as [|c commits IH]; intros i n st H; simpl.
  - by apply obeys_ret.
  - eapply obeys_bind; [apply H; by left|]. intros st' _.
    apply IH. intros j c' st'' Hc'. apply H. by right.
Qed.

Lemma returns_processCommits commits : forall i n st,
  Forall (fun c => (7 <= String.length (Hash c))%nat) commits ->
  returns (processCommits env cfg dryRun force out i n commits st).
Proof.
  induction commits as [|c commits IH]; intros i n st H; simpl; [walk|].
  apply Forall_cons in H as [Hc H].
  apply returns_bind; [by apply returns_processCommit|]. intros st'. by apply IH.
Qed.

Lemma processCommits_short commits : forall i n st s,
  ~ Forall (fun c => (7 <= String.length (Hash c))%nat) commits ->
  exists len, (len < 7)%nat /\
    value (processCommits env cfg dryRun force out i n commits st s) =
    Panicked (SliceOutOfRange 7 len).
Proof.
  induction commits as [|c commits IH]; intros i n st s H; [by destruct H|].
  simpl. rewrite value_bind.
  destruct (Nat.leb_spec 7 (String.length (Hash c))) as [Hle | Hlt].
  - destruct (returns_processCommit env cfg dryRun force out i n c st Hle s) as [st' ->].
    apply IH. intros Hall. apply H. by constructor.
  - exists (String.length (Hash c)). split; [done|].
    by rewrite processCommit_short.
Qed.

Lemma count_status_app status rs1 rs2 :
  count_status status (rs1 ++ rs2) = count_status status rs1 + count_status status rs2.
Proof. unfold count_status. rewrite filter_app, length_app. lia. Qed.

Lemma count_status_one status r :
  count_status status [r] = if decide (res_Status r = status) then 1 else 0.
Proof.
  unfold count_status. rewrite filter_cons. by case_decide.
Qed.

(** The invariant of the loop: the outcomes recorded since [st] are one
    per commit, in order, and account for every move of the counters. *)
Lemma processCommits_outcomes commits : forall i n st,
  obeys (fun _ => True)
    (fun st' => exists rs,
       st_results st' = st_results st ++ rs /\
       Forall2 (fun c r => res_Hash r = substring 0 7 (Hash c) /\
                           String.length (res_Hash r) = 7%nat) commits rs /\
       st_annotated st' =
         st_annotated st + count_status "success" rs + count_status "preview" rs /\
       st_skipped st' = st_skipped st + count_status "skipped" rs /\
       st_failed st' = st_failed st + count_status "failed" rs /\
       st_annotated st' + st_skipped st' + st_failed st' =
         st_annotated st + st_skipped st + st_failed st + Z.of_nat (length rs))
    (processCommits env cfg dryRun force out i n commits st).
Proof.
  induction commits as [|c commits IH]; intros i n st; simpl.
  - apply obeys_ret. exists []. rewrite app_nil_r. unfold count_status. simpl.
    repeat split; try lia. constructor.
  - eapply obeys_bind; [apply processCommit_outcome|].
    intros st1 (r & Hres & Hhash & Hlen & Hcount).
    eapply obeys_weaken; [apply IH|done|]. cbv beta.
    intros st' (rs & Hres' & Hall & Ha & Hs & Hf & Hsum).
    exists (r :: rs). rewrite Hres', Hres, <- app_assoc. split; [done|].
    split; [by constructor|].
    change (r :: rs) with ([r] ++ rs). rewrite !count_status_app, !count_status_one.
    rewrite Hsum, Ha, Hs, Hf. simpl length.
    destruct Hcount as [([Hst|Hst] & -> & -> & ->)|[(Hst & -> & -> & ->)|(Hst & -> & -> & ->)]];
      rewrite Hst; repeat case_decide; try done; repeat split; lia.
Qed.

End LoopFacts.

(** ** Running one iteration: the value and the notes of each call *)

Lemma value_ret {A} (a : A) s : value (ret a s) = Done a.
Proof. done. Qed.

Lemma notes_ret {A} (a : A) s : notes_after (ret a s) = s.
Proof. done. Qed.

Lemma value_logProgress out format args s : value (logProgress out format args s) = Done tt.
Proof. unfold logProgress. by case_match. Qed.

Lemma notes_logProgress out format args s : notes_after (logProgress out format args s) = s.
Proof. apply keeps_logProgress. Qed.

Lemma value_slice_to s hi n :
  (hi <= String.length s)%nat -> value (slice_to s hi n) = Done (substring 0 hi s).
Proof. intros H. by rewrite slice_to_ok. Qed.

Lemma notes_slice_to s hi n : notes_after (slice_to s hi n) = n.
Proof. apply keeps_slice_to. Qed.

Lemma notes_hasNote hash ref s : notes_after (hasNote hash ref s) = s.
Proof. apply keeps_hasNote. Qed.

Lemma notes_getCommitDiff env hash s : notes_after (getCommitDiff env hash s) = s.
Proof. apply keeps_getCommitDiff. Qed.

Lemma notes_generateAnnotation env cfg c diff s :
  notes_after (generateAnnotation env cfg c diff s) = s.
Proof. apply keeps_generateAnnotation. Qed.

Lemma value_generateAnnotation env cfg c diff s :
  (7 <= String.length (Hash c))%nat ->
  value (generateAnnotation env cfg c diff s) =
  Done match service_Run env cfg (annotate_request c diff) with
       | inl text => inl (TrimSpace text)
       | inr err => inr (Errorf ("AI request failed: " +:+ Error err))
       end.
Proof.
  intros H. unfold generateAnnotation. rewrite slice_to_ok, bind_ret by done.
  unfold annotate_request, AnnotateCommit, bind, emit, ret, value. simpl.
  by destruct (service_Run env cfg _).
Qed.

(** [addNote] changes the notes exactly when it returns no error, and
    then to the notes with the new one. *)
Lemma notes_addNote env hash ref note s :
  notes_after (addNote env hash ref note s) =
  match value (addNote env hash ref note s) with
  | Done None => <[(ref, hash) := note]> s
  | _ => s
  end.
Proof.
  unfold addNote, bind, emit, ret, getNotes, putNotes, value, notes_after.
  repeat (simpl; case_match; simplify_eq); done.
Qed.

Lemma value_noted c s : value (hasNote (Hash c) "ai" s) = Done (noted s c).
Proof. done. Qed.

Ltac run_commit :=
  unfold processCommit;
  repeat first
    [ rewrite value_bind | rewrite notes_bind
    | rewrite value_ret | rewrite notes_ret
    | rewrite value_logProgress | rewrite notes_logProgress
    | rewrite value_slice_to by done | rewrite notes_slice_to
    | rewrite value_noted | rewrite notes_hasNote
    | rewrite value_getCommitDiff | rewrite notes_getCommitDiff
    | rewrite value_generateAnnotation by done | rewrite notes_generateAnnotation
    | progress cbv beta iota delta [negb] ].

Ltac pass_gate H :=
  match type of H with
  | negb ?force && noted ?s ?c = false =>
      destruct force; cbv beta iota delta [negb andb] in H; run_commit;
      rewrite ?H; run_commit
  end.

Ltac close_step :=
  unfold record_outcome; rewrite ?Z.add_0_r; split; reflexivity.

Section Step.

Variables (env : Env) (cfg : Config) (dryRun force : bool) (out : OutputOptions).
Variables (i n : nat) (c : Commit) (st : LoopState) (s : Notes).
Hypothesis long : (7 <= String.length (Hash c))%nat.

Let short := substring 0 7 (Hash c).
Let step := processCommit env cfg dryRun force out i n c st s.

(** The gate: a commit with a note is skipped unless forced. *)
Lemma step_already_annotated :
  negb force && noted s c = true ->
  value step =
    Done (record_outcome st 0 1 0 (mkResult short "skipped" "already annotated" "")) /\
  notes_after step = s.
Proof.
  intros Hn. apply andb_true_iff in Hn as [Hf Hn]. unfold step.
  destruct force; [done|]. run_commit. rewrite Hn. run_commit.
  close_step.
Qed.

Lemma step_diff_fails err :
  negb force && noted s c = false ->
  cmd_Output env "git" (show_args c) = inr err ->
  value step =
    Done (record_outcome st 0 0 1
            (mkResult short "failed"
               ("failed to get diff: " +:+ ("git show failed: " +:+ Error err)) "")) /\
  notes_after step = s.
Proof.
  intros Hgate Hshow. unfold step, show_args in *.
  pass_gate Hgate; rewrite Hshow; run_commit;
    close_step.
Qed.

Lemma step_empty_diff diff :
  negb force && noted s c = false ->
  cmd_Output env "git" (show_args c) = inl diff ->
  String.length diff = 0%nat ->
  value step =
    Done (record_outcome st 0 1 0
            (mkResult short "skipped" "no diff (merge commit?)" "")) /\
  notes_after step = s.
Proof.
  intros Hgate Hshow Hlen. unfold step, show_args in *.
  apply Nat.eqb_eq in Hlen.
  pass_gate Hgate; rewrite Hshow; run_commit; rewrite Hlen; run_commit;
    close_step.
Qed.

Lemma step_generation_fails diff err :
  negb force && noted s c = false ->
  cmd_Output env "git" (show_args c) = inl diff ->
  String.length diff <> 0%nat ->
  service_Run env cfg (annotate_request c diff) = inr err ->
  value step =
    Done (record_outcome st 0 0 1
            (mkResult short "failed"
               ("failed to generate annotation: " +:+ ("AI request failed: " +:+ Error err))
               "")) /\
  notes_after step = s.
Proof.
  intros Hgate Hshow Hlen Hrun. unfold step, show_args in *.
  apply Nat.eqb_neq in Hlen.
  pass_gate Hgate; rewrite Hshow; run_commit; rewrite Hlen; run_commit;
    rewrite Hrun; run_commit; close_step.
Qed.

Lemma step_preview diff text :
  dryRun = true ->
  negb force && noted s c = false ->
  cmd_Output env "git" (show_args c) = inl diff ->
  String.length diff <> 0%nat ->
  service_Run env cfg (annotate_request c diff) = inl text ->
  value step =
    Done (record_outcome st 1 0 0 (mkResult short "preview" "" (TrimSpace text))) /\
  notes_after step = s.
Proof.
  intros Hdry Hgate Hshow Hlen Hrun. unfold step, show_args in *.
  apply Nat.eqb_neq in Hlen. rewrite Hdry.
  pass_gate Hgate; rewrite Hshow; run_commit; rewrite Hlen; run_commit;
    rewrite Hrun; run_commit; close_step.
Qed.

Lemma step_note_fails diff text err :
  dryRun = false ->
  negb force && noted s c = false ->
  cmd_Output env "git" (show_args c) = inl diff ->
  String.length diff <> 0%nat ->
  service_Run env cfg (annotate_request c diff) = inl text ->
  value (addNote env (Hash c) "ai" (TrimSpace text) s) = Done (Some err) ->
  value step =
    Done (record_outcome st 0 0 1
            (mkResult short "failed" ("failed to add note: " +:+ Error err) "")) /\
  notes_after step = s.
Proof.
  intros Hdry Hgate Hshow Hlen Hrun Hadd. unfold step, show_args in *.
  apply Nat.eqb_neq in Hlen. rewrite Hdry.
  pass_gate Hgate; rewrite Hshow; run_commit; rewrite Hlen; run_commit;
    rewrite Hrun; run_commit; rewrite ?notes_addNote, Hadd; run_commit;
    close_step.
Qed.

Lemma step_success diff text :
  dryRun = false ->
  negb force && noted s c = false ->
  cmd_Output env "git" (show_args c) = inl diff ->
  String.length diff <> 0%nat ->
  service_Run env cfg (annotate_request c diff) = inl text ->
  value (addNote env (Hash c) "ai" (TrimSpace text) s) = Done None ->
  value step =
    Done (record_outcome st 1 0 0 (mkResult short "success" "" (TrimSpace text))) /\
  notes_after step = <[("ai", Hash c) := TrimSpace text]> s.
Proof.
  intros Hdry Hgate Hshow Hlen Hrun Hadd. unfold step, show_args in *.
  apply Nat.eqb_neq in Hlen. rewrite Hdry.
  pass_gate Hgate; rewrite Hshow; run_commit; rewrite Hlen; run_commit;
    rewrite Hrun; run_commit; rewrite ?notes_addNote, Hadd; run_commit;
    close_step.
Qed.

End Step.

(** ** The whole command *)

Lemma logProgress_run out format args s :
  logProgress out format args s = (Done tt, s, progress out format args).
Proof. unfold logProgress, progress. fold (text_mode out). by destruct (text_mode out). Qed.

Lemma parseLoop_run fuel : forall lines i acc s,
  parseLoop fuel lines i acc s = (value (parseLoop fuel lines i acc ∅), s, []).
Proof.
  induction fuel as [|fuel IH]; intros lines i acc s; [done|]. simpl.
  case_match; [|done]. unfold index.
  destruct (lines !! i) as [l0|]; [|done]. rewrite !bind_ret.
  case_match; [done|]. rewrite !bind_ret.
  destruct (lines !! (i + 1)%nat); [|done]. rewrite !bind_ret.
  destruct (lines !! (i + 2)%nat); [|done]. rewrite !bind_ret.
  destruct (lines !! (i + 3)%nat); [|done]. rewrite !bind_ret.
  rewrite IH. by rewrite (IH _ _ _ ∅).
Qed.

(** The commit selector: one [git log], then the parse of its output. *)
Lemma getCommits_eq env since from to s :
  getCommits env since from to s =
  ( match cmd_Output env "git" (log_args since from to) with
    | inl out =>
        match value (parseLines (Split (TrimSpace out) "010") ∅) with
        | Done commits => Done (inl commits)
        | Panicked p => Panicked p
        end
    | inr err => Done (inr (Errorf ("git log failed: " +:+ Error err)))
    end,
    s, [EvExec "git" (log_args since from to)] ).
Proof.
  unfold getCommits, log_args.
  set (args := if negb (String.eqb from "") then _ else _).
  replace (_ ++ [if negb (String.eqb from "") then _ else _]) with args
    by (unfold args; by destruct (negb _)).
  unfold parseLines.
  assert (forall n, Output env "git" args n =
            (Done (cmd_Output env "git" args), n, [EvExec "git" args])) as Hout by done.
  rewrite !(bind_Done _ _ _ _ _ _ (Hout _)).
  destruct (cmd_Output env "git" args) as [out|err]; [|done].
  pose proof (parseLoop_run (length (Split (TrimSpace out) "010"))
                (Split (TrimSpace out) "010") 0 []) as Hp.
  destruct (value (parseLoop _ _ 0 [] ∅)) as [commits|p].
  - by rewrite !(bind_Done _ _ _ _ _ _ (Hp _)).
  - by rewrite !(bind_Panicked _ _ _ _ _ _ (Hp _)).
Qed.

Lemma getCommits_run env since from to s :
  getCommits env since from to s =
  (value (getCommits env since from to ∅), s, [EvExec "git" (log_args since from to)]).
Proof. by rewrite !getCommits_eq. Qed.

Lemma outputResults_run env dryRun out n st s :
  outputResults env dryRun out n st s =
  ( Done (if Is out OutputJSON then
            match json_Encode env (summary_of dryRun n st) with
            | Some err => Some (CLIError ("failed to encode JSON: " +:+ Error err)
                                         "Try --output table instead")
            | None => None
            end
          else None),
    s,
    if Is out OutputJSON then [EvEncodeJSON (summary_of dryRun n st)]
    else if Is out OutputQuiet then []
    else text_summary dryRun st ).
Proof.
  unfold outputResults, summary_of, text_summary, bind, emit, ret.
  destruct (Is out OutputJSON); simpl.
  - by destruct (json_Encode env _).
  - destruct (Is out OutputQuiet); [done|]. by destruct dryRun.
Qed.

Lemma getCommits_Done env since from to s r :
  value (getCommits env since from to s) = Done r ->
  forall n, getCommits env since from to n =
            (Done r, n, [EvExec "git" (log_args since from to)]).
Proof.
  intros H n. rewrite getCommits_run in H. unfold value in H. simpl in H.
  rewrite getCommits_run. unfold value. simpl. by rewrite H.
Qed.

Lemma bind_run {A B} (m : M A) (k : A -> M B) s a s1 e1 r s2 e2 :
  m s = (Done a, s1, e1) -> k a s1 = (r, s2, e2) -> bind m k s = (r, s2, e1 ++ e2).
Proof. intros Hm Hk. unfold bind. by rewrite Hm, Hk. Qed.

Lemma emit_run e s : emit e s = (Done tt, s, [e]).
Proof. done. Qed.

Section Run.

Variables (env : Env) (cfg : Config) (since : Z) (from to : string).
Variables (dryRun force : bool) (out : OutputOptions) (s : Notes).

Let run := runAnnotate env cfg since from to dryRun force out s.
Let selected := value (getCommits env since from to s).

(** The commit selector fails: the command returns the error, having
    printed at most its first progress line. *)
Lemma run_selector_fails err :
  selected = Done (inr err) ->
  run = ( Done (Some (Errorf ("failed to get commits: " +:+ Error err))), s,
          progress out ("Starting git history annotation..." +:+ LF) [] ++
          [EvExec "git" (log_args since from to)] ).
Proof.
  intros H. unfold run, runAnnotate.
  etransitivity.
  { eapply bind_run; [apply logProgress_run|].
    eapply bind_run; [apply (getCommits_Done _ _ _ _ _ _ H)|]. reflexivity. }
  by rewrite app_nil_r.
Qed.

(** The commit selector finds nothing: the command returns at once. *)
Lemma run_no_commits :
  selected = Done (inl []) ->
  run = ( Done None, s,
          progress out ("Starting git history annotation..." +:+ LF) [] ++
          [EvExec "git" (log_args since from to)] ++
          progress out ("No commits to annotate." +:+ LF) [] ).
Proof.
  intros H. unfold run, runAnnotate.
  etransitivity.
  { eapply bind_run; [apply logProgress_run|].
    eapply bind_run; [apply (getCommits_Done _ _ _ _ _ _ H)|].
    eapply bind_run; [apply logProgress_run|]. reflexivity. }
  by rewrite app_nil_r.
Qed.

(** The configuration is refused and there are commits: the command
    returns the error before the loop. *)
Lemma run_bad_config commits err :
  selected = Done (inl commits) -> commits <> [] ->
  ai_ValidateConfig env cfg = Some err ->
  value run = Done (Some (Errorf ("invalid AI configuration: " +:+ Error err))).
Proof.
  intros H Hne Hcfg. unfold run, selected in *.
  destruct commits as [|c commits]; [done|].
  assert (exists s' evs,
            runAnnotate env cfg since from to dryRun force out s =
            (Done (Some (Errorf ("invalid AI configuration: " +:+ Error err))),
             s', evs)) as (s' & evs & Hrun); [|by rewrite Hrun].
  do 2 eexists. unfold runAnnotate.
  eapply bind_run; [apply logProgress_run|].
  eapply bind_run; [apply (getCommits_Done _ _ _ _ _ _ H)|].
  eapply bind_run; [apply logProgress_run|].
  eapply bind_run; [apply emit_run|]. rewrite Hcfg. reflexivity.
Qed.

(** The loop is entered and completes: the command reports. *)
Lemma run_loop commits st s' evs :
  selected = Done (inl commits) -> commits <> [] ->
  ai_ValidateConfig env cfg = None -> ai_NewClient env cfg = None ->
  processCommits env cfg dryRun force out 0 (length commits) commits loop_init s
    = (Done st, s', evs) ->
  run =
  ( value (outputResults env dryRun out (length commits) st s'), s',
    prologue cfg since from to out (length commits) ++ evs ++
    events (outputResults env dryRun out (length commits) st s') ).
Proof.
  intros H Hne Hcfg Hcli Hloop. unfold run, runAnnotate, prologue.
  destruct commits as [|c commits]; [done|].
  set (cs := c :: commits) in *.
  etransitivity.
  { eapply bind_run; [apply logProgress_run|].
    eapply bind_run; [apply (getCommits_Done _ _ _ _ _ _ H)|].
    change (length cs =? 0)%nat with false. cbv iota.
    eapply bind_run; [apply logProgress_run|].
    eapply bind_run; [apply emit_run|]. rewrite Hcfg.
    eapply bind_run; [apply emit_run|]. rewrite Hcli.
    eapply bind_run; [apply Hloop|]. apply outputResults_run. }
  rewrite outputResults_run. unfold value, events. simpl.
  f_equal. repeat (rewrite <- app_assoc; simpl). reflexivity.
Qed.

(** The loop is entered and panics: so does the command. *)
Lemma run_loop_panics commits p :
  selected = Done (inl commits) -> commits <> [] ->
  ai_ValidateConfig env cfg = None -> ai_NewClient env cfg = None ->
  value (processCommits env cfg dryRun force out 0 (length commits) commits loop_init s)
    = Panicked p ->
  value run = Panicked p.
Proof.
  intros H Hne Hcfg Hcli Hloop. unfold run, selected in *.
  pose proof (run_eta (processCommits env cfg dryRun force out 0 (length commits)
                         commits loop_init s)) as Hr.
  rewrite Hloop in Hr.
  assert (exists s' evs, runAnnotate env cfg since from to dryRun force out s =
                         (Panicked p, s', evs)) as (s' & evs & Hrun); [|by rewrite Hrun].
  do 2 eexists. unfold runAnnotate.
  destruct commits as [|c commits]; [done|].
  set (cs := c :: commits) in *.
  eapply bind_run; [apply logProgress_run|].
  eapply bind_run; [apply (getCommits_Done _ _ _ _ _ _ H)|].
  change (length cs =? 0)%nat with false. cbv iota.
  eapply bind_run; [apply logProgress_run|].
  eapply bind_run; [apply emit_run|]. rewrite Hcfg.
  eapply bind_run; [apply emit_run|]. rewrite Hcli.
  eapply bind_Panicked. exact Hr.
Qed.

End Run.

(** ** What a run does to the outside *)

Lemma obeys_getCommits (P : Event -> Prop) env since from to :
  P (EvExec "git" (log_args since from to)) ->
  obeys P (fun _ => True) (getCommits env since from to).
Proof.
  intros H s. rewrite getCommits_run. split; [|done]. by repeat constructor.
Qed.

Lemma obeys_outputResults (P : Event -> Prop) env dryRun out n st :
  (Is out OutputJSON = true -> P (EvEncodeJSON (summary_of dryRun n st))) ->
  (Is out OutputJSON = false -> Is out OutputQuiet = false ->
   Forall P (text_summary dryRun st)) ->
  obeys P (fun _ => True) (outputResults env dryRun out n st).
Proof.
  intros HJ HT s. rewrite outputResults_run. split; [|done]. unfold events. simpl.
  destruct (Is out OutputJSON); [by repeat constructor; auto|].
  destruct (Is out OutputQuiet); [constructor|auto].
Qed.

(** One iteration, by kind of event: what is printed is printed in text
    mode only, a note is looked for only when not forced and written only
    outside dry-run mode. *)
Lemma processCommit_never (p : Event -> bool) env cfg dryRun force out i n c st :
  (text_mode out = true -> forall format args, p (EvPrintf format args) = false) ->
  p (EvExec "git" ["show"; "--format="; Hash c]) = false ->
  (force = false -> p (EvExec "git" ["notes"; "--ref"; "ai"; "show"; Hash c]) = false) ->
  (forall opts, p (EvServiceRun cfg opts) = false) ->
  (dryRun = false ->
   (forall file, p (EvExec "git" ["notes"; "--ref"; "ai"; "add"; "-F"; file; Hash c]) = false) /\
   (forall pattern, p (EvCreateTemp pattern) = false) /\
   (forall file, p (EvRemove file) = false)) ->
  never p (processCommit env cfg dryRun force out i n c st).
Proof.
  intros Hprint Hshow Hcheck Hrun Hwrite. unfold never.
  destruct dryRun, force; walk_commit; try done; auto;
    try (by apply Hwrite); try (by apply Hprint).
Qed.

Lemma processCommits_never (p : Event -> bool) env cfg dryRun force out commits i n st :
  (forall i c st, never p (processCommit env cfg dryRun force out i n c st)) ->
  never p (processCommits env cfg dryRun force out i n commits st).
Proof. intros H. apply processCommits_events. intros j c st' _. apply H. Qed.

(** The whole command, by kind of event. *)
Lemma runAnnotate_never (p : Event -> bool) env cfg since from to dryRun force out :
  (text_mode out = true -> forall format args, p (EvPrintf format args) = false) ->
  p (EvExec "git" (log_args since from to)) = false ->
  p (EvValidateConfig cfg) = false -> p (EvNewClient cfg) = false ->
  (forall i n c st, never p (processCommit env cfg dryRun force out i n c st)) ->
  (forall n st, Is out OutputJSON = true -> p (EvEncodeJSON (summary_of dryRun n st)) = false) ->
  (forall st, Is out OutputJSON = false -> Is out OutputQuiet = false ->
              Forall (fun e => p e = false) (text_summary dryRun st)) ->
  never p (runAnnotate env cfg since from to dryRun force out).
Proof.
  intros Hprint Hlog Hval Hcli Hloop Hjson Htext. unfold never, runAnnotate.
  eapply obeys_bind; [by apply obeys_logProgress; auto|]. intros _ _.
  eapply obeys_bind; [by apply obeys_getCommits|]. intros r _.
  destruct r as [commits|err]; [|by apply obeys_ret].
  case_match.
  { eapply obeys_bind; [by apply obeys_logProgress; auto|]. intros _ _. by apply obeys_ret. }
  eapply obeys_bind; [by apply obeys_logProgress; auto|]. intros _ _.
  apply obeys_bind_emit; [done|]. case_match; [by apply obeys_ret|].
  apply obeys_bind_emit; [done|]. case_match; [by apply obeys_ret|].
  eapply obeys_bind; [by apply processCommits_never|]. intros st _.
  apply obeys_outputResults; auto.
Qed.

Lemma keeps_outputResults env dryRun out n st : keeps_notes (outputResults env dryRun out n st).
Proof. intros s. by rewrite outputResults_run. Qed.

Lemma keeps_processCommits_dry env cfg force out commits : forall i n st,
  keeps_notes (processCommits env cfg true force out i n commits st).
Proof.
  induction commits as [|c commits IH]; intros i n st; simpl; [walk|].
  apply keeps_bind; [apply keeps_processCommit_dry|]. intros st'. apply IH.
Qed.

Lemma keeps_runAnnotate_dry env cfg since from to force out :
  keeps_notes (runAnnotate env cfg since from to true force out).
Proof.
  unfold runAnnotate.
  repeat first
    [ apply keeps_processCommits_dry | apply keeps_outputResults
    | solve [auto with go] | apply keeps_bind; [|intros ?] | case_match ].
Qed.

Lemma filter_encode_none evs :
  Forall (fun e => is_encode e = false) evs -> List.filter is_encode evs = [].
Proof.
  induction 1 as [|e evs He _ IH]; [done|]. simpl. by rewrite He.
Qed.

Lemma gate_open force s c :
  force = true \/ noted s c = false -> negb force && noted s c = false.
Proof. intros [-> | ->]; [done|]. by destruct force. Qed.

(** A dry run over commits that all get through: one preview each, all
    counted as annotated, and the notes as they were. *)
Lemma processCommits_previews env cfg force out commits : forall rs i n st s,
  Forall2 (previews env cfg force s) commits rs ->
  exists evs,
    processCommits env cfg true force out i n commits st s =
    ( Done {| st_annotated := st_annotated st + Z.of_nat (length commits);
              st_skipped := st_skipped st;
              st_failed := st_failed st;
              st_results := st_results st ++ rs |}, s, evs ).
Proof.
  induction commits as [|c commits IH]; intros rs i n st s H.
  - apply Forall2_nil_inv_l in H as ->. exists []. simpl. unfold ret.
    rewrite app_nil_r, Z.add_0_r. by destruct st.
  - apply Forall2_cons_inv_l in H as (r & rs' & Hc & Hrs & ->).
    destruct Hc as (Hlong & Hgate & diff & text & Hshow & Hlen & Hrun & _ & ->).
    destruct (step_preview env cfg true force out i n c st s Hlong diff text eq_refl
                (gate_open _ _ _ Hgate) Hshow Hlen Hrun) as [Hv Hn].
    destruct (IH rs' (S i) n
                (record_outcome st 1 0 0
                   (mkResult (substring 0 7 (Hash c)) "preview" "" (TrimSpace text)))
                s Hrs) as [evs Hrest].
    eexists. simpl. eapply bind_run.
    + rewrite (run_eta (processCommit _ _ _ _ _ _ _ _ _ _)), Hv, Hn. reflexivity.
    + rewrite Hrest. unfold record_outcome. simpl.
      rewrite <- app_assoc. simpl. do 3 f_equal. f_equal; lia.
Qed.

(** ** Claims *)

(** C1. A run that completes its loop has recorded exactly one outcome per
    candidate commit, in order and each for its commit; the counters are
    the numbers of outcomes by status (success or preview, skipped,
    failed) and add up to the number of candidates. *)
Theorem C1_one_outcome_per_commit env cfg dryRun force out commits s st' :
  value (processCommits env cfg dryRun force out 0 (length commits) commits loop_init s)
    = Done st' ->
  Forall2 (fun c r => res_Hash r = substring 0 7 (Hash c)) commits (st_results st') /\
  length (st_results st') = length commits /\
  st_annotated st' =
    count_status "success" (st_results st') + count_status "preview" (st_results st') /\
  st_skipped st' = count_status "skipped" (st_results st') /\
  st_failed st' = count_status "failed" (st_results st') /\
  st_annotated st' + st_skipped st' + st_failed st' = Z.of_nat (length commits).
Proof.
  intros H.
  destruct (processCommits_outcomes env cfg dryRun force out commits 0 (length commits)
              loop_init s) as [_ Hv].
  destruct (Hv st' H) as (rs & Hres & Hall & Ha & Hs & Hf & Hsum).
  simpl in *. subst rs.
  assert (length (st_results st') = length commits) as Hlen
    by (symmetry; eapply Forall2_length; eauto).
  repeat split; try done; try lia.
  eapply Forall2_impl; [exact Hall|]. by intros c r [? _].
Qed.

Lemma C1_witness :
  exists st',
    value (processCommits Scenario.flaky Scenario.cfg false false (mkOutput OutputTable)
             0 3 [Scenario.c1; Scenario.c2; Scenario.c3] loop_init ∅) = Done st' /\
    length (st_results st') = 3%nat /\
    st_annotated st' + st_skipped st' + st_failed st' = 3.
Proof.
  eexists. split; [vm_compute; reflexivity|].
  pose proof (C1_one_outcome_per_commit Scenario.flaky Scenario.cfg false false
                (mkOutput OutputTable) [Scenario.c1; Scenario.c2; Scenario.c3] ∅ _ eq_refl)
    as H.
  split; apply H.
Defined.

(** C2, as the code has it. A failure of the diff retrieval, of the generation or of
    the note writing is caught where it happens: the commit gets one
    outcome with status "failed" and a message that names the stage and
    the error, and the loop goes on with the next commit.  Once the loop
    has completed the command returns success whatever the commits did,
    unless it is in JSON mode and encoding the summary fails; when the
    commit selector fails the command returns that error and has done
    nothing but the [git log] and its first progress line. *)
Theorem C2_failures_are_per_commit env cfg since from to dryRun force out s :
  (forall i n c st s0,
     (7 <= String.length (Hash c))%nat -> force = true \/ noted s0 c = false ->
     let step := processCommit env cfg dryRun force out i n c st s0 in
     (forall err,
        cmd_Output env "git" (show_args c) = inr err ->
        records_failure step st s0 c
          ("failed to get diff: " +:+ ("git show failed: " +:+ Error err))) /\
     (forall diff err,
        cmd_Output env "git" (show_args c) = inl diff -> String.length diff <> 0%nat ->
        service_Run env cfg (annotate_request c diff) = inr err ->
        records_failure step st s0 c
          ("failed to generate annotation: " +:+ ("AI request failed: " +:+ Error err))) /\
     (forall diff text err,
        dryRun = false ->
        cmd_Output env "git" (show_args c) = inl diff -> String.length diff <> 0%nat ->
        service_Run env cfg (annotate_request c diff) = inl text ->
        value (addNote env (Hash c) "ai" (TrimSpace text) s0) = Done (Some err) ->
        records_failure step st s0 c ("failed to add note: " +:+ Error err))) /\
  (forall i n c rest st s0,
     (7 <= String.length (Hash c))%nat ->
     exists st',
       value (processCommit env cfg dryRun force out i n c st s0) = Done st' /\
       value (processCommits env cfg dryRun force out i n (c :: rest) st s0) =
       value (processCommits env cfg dryRun force out (S i) n rest st'
                (notes_after (processCommit env cfg dryRun force out i n c st s0)))) /\
  (forall commits st,
     value (getCommits env since from to s) = Done (inl commits) -> commits <> [] ->
     ai_ValidateConfig env cfg = None -> ai_NewClient env cfg = None ->
     value (processCommits env cfg dryRun force out 0 (length commits) commits loop_init s)
       = Done st ->
     exists r,
       value (runAnnotate env cfg since from to dryRun force out s) = Done r /\
       (exitCode r = 0 <->
        Is out OutputJSON = false \/
        json_Encode env (summary_of dryRun (length commits) st) = None)) /\
  (forall err,
     value (getCommits env since from to s) = Done (inr err) ->
     runAnnotate env cfg since from to dryRun force out s =
       ( Done (Some (Errorf ("failed to get commits: " +:+ Error err))), s,
         progress out ("Starting git history annotation..." +:+ LF) [] ++
         [EvExec "git" (log_args since from to)] ) /\
     exitCode (Some (Errorf ("failed to get commits: " +:+ Error err))) = 1).
Proof.
  split; [|split; [|split]].
  - intros i n c st s0 Hlong Hgate step. apply gate_open in Hgate.
    unfold step, records_failure. split; [|split].
    + intros err Hshow.
      destruct (step_diff_fails env cfg dryRun force out i n c st s0 Hlong err Hgate Hshow)
        as [Hv Hn].
      split; [|done]. rewrite Hv. unfold record_outcome. by rewrite !Z.add_0_r.
    + intros diff err Hshow Hlen Hrun.
      destruct (step_generation_fails env cfg dryRun force out i n c st s0 Hlong diff err
                  Hgate Hshow Hlen Hrun) as [Hv Hn].
      split; [|done]. rewrite Hv. unfold record_outcome. by rewrite !Z.add_0_r.
    + intros diff text err Hdry Hshow Hlen Hrun Hadd.
      destruct (step_note_fails env cfg dryRun force out i n c st s0 Hlong diff text err
                  Hdry Hgate Hshow Hlen Hrun Hadd) as [Hv Hn].
      split; [|done]. rewrite Hv. unfold record_outcome. by rewrite !Z.add_0_r.
  - intros i n c rest st s0 Hlong.
    destruct (returns_processCommit env cfg dryRun force out i n c st Hlong s0) as [st' Hst'].
    exists st'. split; [done|]. simpl. by rewrite value_bind, Hst'.
  - intros commits st Hsel Hne Hcfg Hcli Hloop.
    pose proof (run_eta (processCommits env cfg dryRun force out 0 (length commits)
                           commits loop_init s)) as Hr.
    rewrite Hloop in Hr.
    rewrite (run_loop env cfg since from to dryRun force out s commits st _ _
               Hsel Hne Hcfg Hcli Hr).
    rewrite outputResults_run. unfold value at 1. simpl. eexists. split; [reflexivity|].
    destruct (Is out OutputJSON); [|by split; auto].
    destruct (json_Encode env _) as [err|]; simpl.
    + split; [done|]. by intros [?|?].
    + split; [by right|done].
  - intros err Hsel. split; [|done]. by apply run_selector_fails.
Qed.

Lemma C2_witness :
  records_failure
    (processCommit Scenario.flaky Scenario.cfg false false (mkOutput OutputTable)
       0 3 Scenario.c1 loop_init ∅)
    loop_init ∅ Scenario.c1 "failed to get diff: git show failed: exit status 128" /\
  records_failure
    (processCommit Scenario.flaky Scenario.cfg false false (mkOutput OutputTable)
       1 3 Scenario.c2 loop_init ∅)
    loop_init ∅ Scenario.c2
    "failed to generate annotation: AI request failed: rate limited" /\
  records_failure
    (processCommit Scenario.flaky Scenario.cfg false false (mkOutput OutputTable)
       2 3 Scenario.c3 loop_init ∅)
    loop_init ∅ Scenario.c3
    ("failed to add note: git notes failed: exit status 1" +:+ LF +:+
     "Output: error: unable to write note object" +:+ LF) /\
  (exists r,
     value (runAnnotate Scenario.flaky Scenario.cfg 3 "" "HEAD" false false
              (mkOutput OutputTable) ∅) = Done r /\ exitCode r = 0) /\
  value (runAnnotate Scenario.no_repository Scenario.cfg 3 "" "HEAD" false false
           (mkOutput OutputTable) ∅) =
  Done (Some (Errorf "failed to get commits: git log failed: exit status 128")).
Proof.
  destruct (C2_failures_are_per_commit Scenario.flaky Scenario.cfg 3 "" "HEAD" false false
              (mkOutput OutputTable) ∅) as (Hstep & _ & Hafter & _).
  destruct (C2_failures_are_per_commit Scenario.no_repository Scenario.cfg 3 "" "HEAD"
              false false (mkOutput OutputTable) ∅) as (_ & _ & _ & Hsel).
  split; [|split; [|split; [|split]]].
  - destruct (Hstep 0%nat 3%nat Scenario.c1 loop_init ∅ ltac:(vm_compute; lia)
                ltac:(by right)) as (Hdiff & _ & _).
    exact (Hdiff (Errorf "exit status 128") eq_refl).
  - destruct (Hstep 1%nat 3%nat Scenario.c2 loop_init ∅ ltac:(vm_compute; lia)
                ltac:(by right)) as (_ & Hgen & _).
    exact (Hgen Scenario.a_diff (Errorf "rate limited") eq_refl
             ltac:(vm_compute; discriminate) eq_refl).
  - destruct (Hstep 2%nat 3%nat Scenario.c3 loop_init ∅ ltac:(vm_compute; lia)
                ltac:(by right)) as (_ & _ & Hnote).
    exact (Hnote Scenario.a_diff Scenario.an_answer _ eq_refl eq_refl
             ltac:(vm_compute; discriminate) eq_refl eq_refl).
  - destruct (Hafter [Scenario.c1; Scenario.c2; Scenario.c3] _ eq_refl ltac:(discriminate)
                eq_refl eq_refl eq_refl) as (r & Hr & Hexit).
    exists r. split; [exact Hr|]. apply Hexit. by left.
  - destruct (Hsel (Errorf "git log failed: exit status 128") eq_refl) as [Hrun _].
    by rewrite Hrun.
Defined.

(** C2, as stated, fails: in JSON mode with standard output closed the
    loop completes (three commits annotated, none failed) and the command
    returns the encoder's error, so the process exits with code 1. *)
Lemma C2_counterexample :
  (exists st,
     value (processCommits Scenario.closed_stdout Scenario.cfg false false
              (mkOutput OutputJSON) 0 3 [Scenario.c1; Scenario.c2; Scenario.c3]
              loop_init ∅) = Done st /\
     st_annotated st = 3 /\ st_failed st = 0) /\
  value (runAnnotate Scenario.closed_stdout Scenario.cfg 3 "" "HEAD" false false
           (mkOutput OutputJSON) ∅) =
    Done (Some (CLIError "failed to encode JSON: write /dev/stdout: file already closed"
                         "Try --output table instead")) /\
  exitCode (Some (CLIError "failed to encode JSON: write /dev/stdout: file already closed"
                           "Try --output table instead")) <> 0.
Proof.
  split; [|split].
  - eexists. split; [vm_compute; reflexivity|]. by split.
  - vm_compute. reflexivity.
  - discriminate.
Qed.

(** C3, as the code has it. A dry run never calls the note writer: it creates no
    temporary file and runs no [git notes add], so the notes are after
    the run what they were before it, and a note-exists check gives for
    every commit the answer it gave before (false for a commit that had
    no note); a commit whose annotation is generated is recorded with
    status "preview" and that annotation, and counted as annotated. *)
Theorem C3_dry_run_writes_no_note env cfg since from to force out s :
  Forall (fun e => is_note_write e = false)
    (events (runAnnotate env cfg since from to true force out s)) /\
  notes_after (runAnnotate env cfg since from to true force out s) = s /\
  (forall hash ref,
     value (hasNote hash ref (notes_after (runAnnotate env cfg since from to true force out s)))
     = value (hasNote hash ref s)) /\
  (forall i n c st s0 diff text,
     (7 <= String.length (Hash c))%nat -> force = true \/ noted s0 c = false ->
     cmd_Output env "git" (show_args c) = inl diff -> String.length diff <> 0%nat ->
     service_Run env cfg (annotate_request c diff) = inl text ->
     value (processCommit env cfg true force out i n c st s0) =
       Done {| st_annotated := st_annotated st + 1;
               st_skipped := st_skipped st;
               st_failed := st_failed st;
               st_results := st_results st ++
                 [mkResult (substring 0 7 (Hash c)) "preview" "" (TrimSpace text)] |} /\
     notes_after (processCommit env cfg true force out i n c st s0) = s0).
Proof.
  assert (notes_after (runAnnotate env cfg since from to true force out s) = s) as Hkeep
    by apply keeps_runAnnotate_dry.
  split; [|split; [done|split]].
  - apply (runAnnotate_never is_note_write); try done.
    + intros i n c st. by apply processCommit_never.
    + intros st _ _. by repeat constructor.
  - intros hash ref. by rewrite Hkeep.
  - intros i n c st s0 diff text Hlong Hgate Hshow Hlen Hrun.
    destruct (step_preview env cfg true force out i n c st s0 Hlong diff text eq_refl
                (gate_open _ _ _ Hgate) Hshow Hlen Hrun) as [Hv Hn].
    split; [|done]. rewrite Hv. unfold record_outcome. by rewrite !Z.add_0_r.
Qed.

Lemma C3_witness :
  notes_after (runAnnotate (Scenario.healthy Scenario.three_commits) Scenario.cfg 3 ""
                 "HEAD" true false (mkOutput OutputTable) ∅) = ∅ /\
  value (processCommit (Scenario.healthy Scenario.three_commits) Scenario.cfg true false
           (mkOutput OutputTable) 0 3 Scenario.c1 loop_init ∅) =
  Done {| st_annotated := 1; st_skipped := 0; st_failed := 0;
          st_results := [mkResult "1111111" "preview" "" "Adds x to the parser."] |}.
Proof.
  destruct (C3_dry_run_writes_no_note (Scenario.healthy Scenario.three_commits)
              Scenario.cfg 3 "" "HEAD" false (mkOutput OutputTable) ∅)
    as (_ & Hnotes & _ & Hpreview).
  split; [exact Hnotes|].
  exact (proj1 (Hpreview 0%nat 3%nat Scenario.c1 loop_init ∅ Scenario.a_diff
                  Scenario.an_answer ltac:(vm_compute; lia) ltac:(by right) eq_refl
                  ltac:(vm_compute; discriminate) eq_refl)).
Defined.

(** C3, as stated, fails: a forced dry run over a commit that already has
    a note processes the commit (its outcome is a preview), and the
    note-exists check after the run returns true for it. *)
Lemma C3_counterexample :
  value (processCommit (Scenario.healthy Scenario.three_commits) Scenario.cfg true true
           (mkOutput OutputTable) 0 3 Scenario.c1 loop_init Scenario.annotated_c1) =
  Done {| st_annotated := 1; st_skipped := 0; st_failed := 0;
          st_results := [mkResult "1111111" "preview" "" "Adds x to the parser."] |} /\
  value (hasNote Scenario.h1 "ai"
           (notes_after (runAnnotate (Scenario.healthy Scenario.three_commits) Scenario.cfg
                           3 "" "HEAD" true true (mkOutput OutputTable)
                           Scenario.annotated_c1))) = Done true.
Proof. split; vm_compute; reflexivity. Qed.

(** In the healthy world every commit with a long enough hash gets
    through a dry run. *)
Lemma healthy_previews log c :
  (7 <= String.length (Hash c))%nat ->
  previews (Scenario.healthy log) Scenario.cfg false ∅ c
    (mkResult (substring 0 7 (Hash c)) "preview" "" "Adds x to the parser.").
Proof.
  intros Hlong. split; [done|]. split; [by right|].
  exists Scenario.a_diff, Scenario.an_answer.
  split; [reflexivity|]. split; [vm_compute; discriminate|]. split; [reflexivity|].
  split; [vm_compute; discriminate|]. reflexivity.
Qed.

(** C4, as the code has it. A dry run in JSON mode over three commits that all get
    through (none annotated or the run forced, diffs not empty, the
    service answering with text that is not blank) encodes one summary:
    total 3, annotated 3, skipped 0, failed 0, dry_run true, and three
    results with status "preview" and an annotation that is not empty.
    Previewed commits are counted in the annotated tally.  Nothing is
    printed and the notes stay as they are. *)
Theorem C4_dry_run_json_summary env cfg since from to force out s c1 c2 c3 r1 r2 r3 :
  Is out OutputJSON = true ->
  value (getCommits env since from to s) = Done (inl [c1; c2; c3]) ->
  ai_ValidateConfig env cfg = None -> ai_NewClient env cfg = None ->
  previews env cfg force s c1 r1 -> previews env cfg force s c2 r2 ->
  previews env cfg force s c3 r3 ->
  List.filter is_encode (events (runAnnotate env cfg since from to true force out s)) =
    [EvEncodeJSON {| total := 3; annotated := 3; skipped := 0; failed := 0;
                     dry_run := true; results := [r1; r2; r3] |}] /\
  Forall (fun r => res_Status r = "preview" /\ res_Annotation r <> "") [r1; r2; r3] /\
  Forall (fun e => is_print e = false)
    (events (runAnnotate env cfg since from to true force out s)) /\
  notes_after (runAnnotate env cfg since from to true force out s) = s.
Proof.
  intros Hjson Hsel Hcfg Hcli H1 H2 H3.
  assert (text_mode out = false) as Htext.
  { unfold text_mode. rewrite Hjson. by destruct (Is out OutputQuiet). }
  destruct (processCommits_previews env cfg force out [c1; c2; c3] [r1; r2; r3] 0 3
              loop_init s) as [evs Hloop]; [by repeat first [assumption | constructor]|].
  assert (Forall (fun e => is_encode e = false) evs) as Hquiet.
  { pose proof (processCommits_never is_encode env cfg true force out [c1; c2; c3] 0 3
                  loop_init) as Hn.
    destruct (Hn (fun i c st => processCommit_never is_encode env cfg true force out i 3 c st
                       ltac:(done) ltac:(done) ltac:(done) ltac:(done) ltac:(done)) s)
      as [He _].
    by rewrite Hloop in He. }
  split; [|split; [|split]].
  - rewrite (run_loop env cfg since from to true force out s [c1; c2; c3] _ _ _
               Hsel ltac:(done) Hcfg Hcli Hloop).
    unfold events at 1. cbn [snd]. rewrite outputResults_run. unfold events. cbn [snd].
    rewrite Hjson. unfold prologue, progress. rewrite Htext.
    rewrite !List.filter_app, (filter_encode_none evs Hquiet). reflexivity.
  - repeat constructor;
      match goal with
      | |- res_Status ?r = _ =>
          match goal with H : previews _ _ _ _ _ r |- _ =>
            by destruct H as (_ & _ & ? & ? & _ & _ & _ & _ & ->) end
      | |- res_Annotation ?r <> _ =>
          match goal with H : previews _ _ _ _ _ r |- _ =>
            by destruct H as (_ & _ & ? & ? & _ & _ & _ & ? & ->) end
      end.
  - apply (runAnnotate_never is_print); try done.
    + by rewrite Htext.
    + intros i n c st. apply processCommit_never; try done. by rewrite Htext.
    + intros st HJ. by rewrite Hjson in HJ.
  - apply keeps_runAnnotate_dry.
Qed.

Lemma C4_witness :
  List.filter is_encode
    (events (runAnnotate (Scenario.healthy Scenario.three_commits) Scenario.cfg 3 "" "HEAD"
               true false (mkOutput OutputJSON) ∅)) =
  [EvEncodeJSON
     {| total := 3; annotated := 3; skipped := 0; failed := 0; dry_run := true;
        results := [ mkResult "1111111" "preview" "" "Adds x to the parser.";
                     mkResult "2222222" "preview" "" "Adds x to the parser.";
                     mkResult "3333333" "preview" "" "Adds x to the parser." ] |}].
Proof.
  exact (proj1 (C4_dry_run_json_summary (Scenario.healthy Scenario.three_commits)
                  Scenario.cfg 3 "" "HEAD" false (mkOutput OutputJSON) ∅
                  Scenario.c1 Scenario.c2 Scenario.c3 _ _ _ eq_refl eq_refl eq_refl eq_refl
                  (healthy_previews _ Scenario.c1 ltac:(vm_compute; lia))
                  (healthy_previews _ Scenario.c2 ltac:(vm_compute; lia))
                  (healthy_previews _ Scenario.c3 ltac:(vm_compute; lia)))).
Defined.

(** C4, as stated, fails: on three commits, none annotated, all with a
    diff and an answer of the service, the dry run in JSON mode encodes a
    summary whose annotated count is 3, not 0. *)
Lemma C4_counterexample :
  exists v,
    List.filter is_encode
      (events (runAnnotate (Scenario.healthy Scenario.three_commits) Scenario.cfg 3 ""
                 "HEAD" true false (mkOutput OutputJSON) ∅)) = [EvEncodeJSON v] /\
    total v = 3 /\ skipped v = 0 /\ failed v = 0 /\ dry_run v = true /\
    (res_Status <$> results v) = ["preview"; "preview"; "preview"] /\
    annotated v = 3 /\ annotated v <> 0.
Proof. eexists. split; [vm_compute; reflexivity|]. by repeat split. Qed.

(** C5, where the code departs from it. When the last record of the log has
    exactly three lines (a hash that is not blank, an author, a date: the
    oldest commit listed has an empty subject and [TrimSpace] removed its
    line), the loop condition [i+3 <= len(lines)] holds, [lines[i+3]] is
    read out of range and the commit selector panics instead of returning
    the complete records. *)
Theorem C5_three_line_record_panics env since from to s out cs hash author date :
  cmd_Output env "git" (log_args since from to) = inl out ->
  Split (TrimSpace out) "010" = log_lines cs ++ [hash; author; date] ->
  Forall (fun c => Hash c <> "") cs ->
  hash <> "" ->
  value (getCommits env since from to s) =
  Panicked (IndexOutOfRange (4 * length cs + 3) (4 * length cs + 3)).
Proof.
  intros Hout Hlines Hcs Hhash.
  rewrite getCommits_eq, Hout, Hlines. unfold value at 1. simpl.
  by rewrite parseLines_panics.
Qed.

Lemma C5_witness :
  value (getCommits (Scenario.healthy Scenario.empty_subject_log) 10 "" "HEAD" ∅) =
  Panicked (IndexOutOfRange 7 7).
Proof.
  apply (C5_three_line_record_panics (Scenario.healthy Scenario.empty_subject_log)
           10 "" "HEAD" ∅ Scenario.empty_subject_log [Scenario.c1]
           Scenario.h2 Scenario.ann Scenario.day).
  - reflexivity.
  - vm_compute. reflexivity.
  - repeat constructor. discriminate.
  - discriminate.
Defined.

(** The commit selector on logs that end otherwise: complete records
    followed by at most two lines, or by a blank hash line, are returned
    as they are. *)
Lemma getCommits_truncates env since from to s out cs tail :
  cmd_Output env "git" (log_args since from to) = inl out ->
  Split (TrimSpace out) "010" = log_lines cs ++ tail ->
  Forall (fun c => Hash c <> "") cs ->
  (length tail < 3)%nat \/ head tail = Some "" ->
  value (getCommits env since from to s) = Done (inl cs).
Proof.
  intros Hout Hlines Hcs Htail.
  rewrite getCommits_eq, Hout, Hlines. unfold value at 1. simpl.
  by rewrite parseLines_truncates.
Qed.

(** C6. A commit that gets past the gate (the run is forced, or the
    commit has no note) and whose diff is read and is empty is recorded
    as skipped, with the message "no diff (merge commit?)", whatever the
    force flag; the notes stay as they are. *)
Theorem C6_empty_diff_is_skipped env cfg dryRun force out i n c st s diff :
  (7 <= String.length (Hash c))%nat ->
  force = true \/ noted s c = false ->
  cmd_Output env "git" (show_args c) = inl diff ->
  String.length diff = 0%nat ->
  value (processCommit env cfg dryRun force out i n c st s) =
    Done {| st_annotated := st_annotated st;
            st_skipped := st_skipped st + 1;
            st_failed := st_failed st;
            st_results := st_results st ++
              [mkResult (substring 0 7 (Hash c)) "skipped" "no diff (merge commit?)" ""] |} /\
  notes_after (processCommit env cfg dryRun force out i n c st s) = s.
Proof.
  intros Hlong Hgate Hshow Hlen.
  destruct (step_empty_diff env cfg dryRun force out i n c st s Hlong diff) as [Hv Hn];
    try done.
  { destruct Hgate as [-> | ->]; [done|]. by destruct force. }
  split; [|done]. rewrite Hv. unfold record_outcome. by rewrite !Z.add_0_r.
Qed.

Lemma C6_witness :
  value (processCommit Scenario.empty_commit Scenario.cfg false true (mkOutput OutputTable)
           0 1 Scenario.c1 loop_init Scenario.annotated_c1) =
  Done {| st_annotated := 0; st_skipped := 1; st_failed := 0;
          st_results := [mkResult "1111111" "skipped" "no diff (merge commit?)" ""] |}.
Proof.
  apply (C6_empty_diff_is_skipped Scenario.empty_commit Scenario.cfg false true
           (mkOutput OutputTable) 0 1 Scenario.c1 loop_init Scenario.annotated_c1 "").
  - vm_compute. lia.
  - by left.
  - reflexivity.
  - reflexivity.
Defined.

(** Forced, every way out of the loop body that returns has recorded one
    outcome that is not the skip for an existing note. *)
Lemma processCommit_forced env cfg dryRun out i n c st :
  obeys (fun _ => True)
    (fun st' => exists r,
       st_results st' = st_results st ++ [r] /\
       res_Message r <> "already annotated" /\
       (res_Status r = "success" \/ res_Status r = "failed" \/
        res_Status r = "preview" /\ dryRun = true \/
        res_Status r = "skipped" /\ res_Message r = "no diff (merge commit?)"))
    (processCommit env cfg dryRun true out i n c st).
Proof.
  walk_commit; try exact I.
  all: eexists; split; [reflexivity|]; simpl; split;
    [ first [discriminate | by (destruct (_ : error); intros [=]) | idtac ] | auto 10 ].
  all: unfold String.append; discriminate.
Qed.

(** C7, as the code has it. With the force flag the gate is bypassed: the note
    check is not run for the commit, annotated or not, and its outcome
    is never the skip for an existing note.  It is "success" or "failed"
    outside dry-run mode when the diff is not empty; an empty diff
    gives "skipped" with the message "no diff (merge commit?)", and in
    dry-run mode a generated annotation gives "preview". *)
Theorem C7_force_bypasses_gate env cfg dryRun out i n c st s :
  Forall (fun e => is_note_check e = false)
    (events (processCommit env cfg dryRun true out i n c st s)) /\
  (forall st',
     value (processCommit env cfg dryRun true out i n c st s) = Done st' ->
     exists r,
       st_results st' = st_results st ++ [r] /\
       res_Message r <> "already annotated" /\
       (res_Status r = "success" \/ res_Status r = "failed" \/
        res_Status r = "preview" /\ dryRun = true \/
        res_Status r = "skipped" /\ res_Message r = "no diff (merge commit?)")) /\
  ((7 <= String.length (Hash c))%nat -> dryRun = false ->
   (forall diff, cmd_Output env "git" (show_args c) = inl diff ->
                 String.length diff <> 0%nat) ->
   exists st' r,
     value (processCommit env cfg dryRun true out i n c st s) = Done st' /\
     st_results st' = st_results st ++ [r] /\
     (res_Status r = "success" \/ res_Status r = "failed")).
Proof.
  split; [|split].
  - by apply (processCommit_never is_note_check).
  - apply processCommit_forced.
  - intros Hlong Hdry Hdiff.
    assert (negb true && noted s c = false) as Hgate by done.
    destruct (cmd_Output env "git" (show_args c)) as [diff|err] eqn:Hshow.
    2:{ destruct (step_diff_fails env cfg dryRun true out i n c st s Hlong err Hgate Hshow)
          as [Hv _].
        do 2 eexists. split; [exact Hv|]. split; [reflexivity|]. by right. }
    specialize (Hdiff diff eq_refl).
    destruct (service_Run env cfg (annotate_request c diff)) as [text|err] eqn:Hrun.
    2:{ destruct (step_generation_fails env cfg dryRun true out i n c st s Hlong diff err
                    Hgate Hshow Hdiff Hrun) as [Hv _].
        do 2 eexists. split; [exact Hv|]. split; [reflexivity|]. by right. }
    destruct (returns_addNote env (Hash c) "ai" (TrimSpace text) s) as [[err|] Hadd].
    + destruct (step_note_fails env cfg dryRun true out i n c st s Hlong diff text err
                  Hdry Hgate Hshow Hdiff Hrun Hadd) as [Hv _].
      do 2 eexists. split; [exact Hv|]. split; [reflexivity|]. by right.
    + destruct (step_success env cfg dryRun true out i n c st s Hlong diff text
                  Hdry Hgate Hshow Hdiff Hrun Hadd) as [Hv _].
      do 2 eexists. split; [exact Hv|]. split; [reflexivity|]. by left.
Qed.

Lemma C7_witness :
  noted Scenario.annotated_c1 Scenario.c1 = true /\
  exists st' r,
    value (processCommit (Scenario.healthy Scenario.three_commits) Scenario.cfg false true
             (mkOutput OutputTable) 0 3 Scenario.c1 loop_init Scenario.annotated_c1)
      = Done st' /\
    st_results st' = st_results loop_init ++ [r] /\
    (res_Status r = "success" \/ res_Status r = "failed").
Proof.
  split; [reflexivity|].
  apply (C7_force_bypasses_gate (Scenario.healthy Scenario.three_commits) Scenario.cfg
           false (mkOutput OutputTable) 0 3 Scenario.c1 loop_init Scenario.annotated_c1).
  - vm_compute. lia.
  - reflexivity.
  - intros diff [= <-]. vm_compute. discriminate.
Defined.

(** C7, as stated, fails: forced, an annotated commit whose diff is
    empty is recorded as skipped. *)
Lemma C7_counterexample :
  noted Scenario.annotated_c1 Scenario.c1 = true /\
  value (processCommit Scenario.empty_commit Scenario.cfg false true (mkOutput OutputTable)
           0 1 Scenario.c1 loop_init Scenario.annotated_c1) =
  Done {| st_annotated := 0; st_skipped := 1; st_failed := 0;
          st_results := [mkResult "1111111" "skipped" "no diff (merge commit?)" ""] |}.
Proof. split; vm_compute; reflexivity. Qed.

(** In JSON mode a run that completes its loop prints nothing and
    encodes the summary, once, after the loop. *)
Lemma json_summary_encoded_once env cfg since from to dryRun force out s commits st s' evs :
  Is out OutputJSON = true ->
  value (getCommits env since from to s) = Done (inl commits) -> commits <> [] ->
  ai_ValidateConfig env cfg = None -> ai_NewClient env cfg = None ->
  processCommits env cfg dryRun force out 0 (length commits) commits loop_init s
    = (Done st, s', evs) ->
  events (runAnnotate env cfg since from to dryRun force out s) =
    [EvExec "git" (log_args since from to); EvValidateConfig cfg; EvNewClient cfg] ++
    evs ++ [EvEncodeJSON (summary_of dryRun (length commits) st)] /\
  Forall (fun e => is_print e = false /\ is_encode e = false) evs.
Proof.
  intros Hjson Hsel Hne Hcfg Hcli Hloop.
  assert (text_mode out = false) as Htext.
  { unfold text_mode. rewrite Hjson. by destruct (Is out OutputQuiet). }
  split.
  - rewrite (run_loop env cfg since from to dryRun force out s commits st s' evs
               Hsel Hne Hcfg Hcli Hloop).
    unfold events at 1. cbn [snd]. rewrite outputResults_run. unfold events. cbn [snd].
    rewrite Hjson. unfold prologue, progress. by rewrite Htext.
  - apply Forall_and. split.
    + pose proof (processCommits_never is_print env cfg dryRun force out commits 0
                    (length commits) loop_init) as Hn.
      destruct (Hn (fun i c st' => processCommit_never is_print env cfg dryRun force out i
                       (length commits) c st'
                       ltac:(by rewrite Htext) ltac:(done) ltac:(done) ltac:(done)
                       ltac:(done)) s) as [He _].
      by rewrite Hloop in He.
    + pose proof (processCommits_never is_encode env cfg dryRun force out commits 0
                    (length commits) loop_init) as Hn.
      destruct (Hn (fun i c st' => processCommit_never is_encode env cfg dryRun force out i
                       (length commits) c st'
                       ltac:(done) ltac:(done) ltac:(done) ltac:(done) ltac:(done)) s)
        as [He _].
      by rewrite Hloop in He.
Qed.

(** C8, where the code departs from it. In YAML mode the progress lines are
    suppressed, as in JSON mode, but the switch that reports has no case
    for YAML: nothing is encoded anywhere in the run, and a run that
    completes its loop ends with the lines of the text summary. *)
Theorem C8_yaml_summary_is_text env cfg since from to dryRun force s commits st s' evs :
  value (getCommits env since from to s) = Done (inl commits) -> commits <> [] ->
  ai_ValidateConfig env cfg = None -> ai_NewClient env cfg = None ->
  processCommits env cfg dryRun force (mkOutput OutputYAML) 0 (length commits) commits
    loop_init s = (Done st, s', evs) ->
  events (runAnnotate env cfg since from to dryRun force (mkOutput OutputYAML) s) =
    [EvExec "git" (log_args since from to); EvValidateConfig cfg; EvNewClient cfg] ++
    evs ++ text_summary dryRun st /\
  Forall (fun e => is_print e = false) evs /\
  Forall (fun e => is_encode e = false)
    (events (runAnnotate env cfg since from to dryRun force (mkOutput OutputYAML) s)).
Proof.
  intros Hsel Hne Hcfg Hcli Hloop. split; [|split].
  - rewrite (run_loop env cfg since from to dryRun force _ s commits st s' evs
               Hsel Hne Hcfg Hcli Hloop).
    unfold events at 1. cbn [snd]. rewrite outputResults_run. reflexivity.
  - pose proof (processCommits_never is_print env cfg dryRun force (mkOutput OutputYAML)
                  commits 0 (length commits) loop_init) as Hn.
    destruct (Hn (fun i c st' => processCommit_never is_print env cfg dryRun force
                     (mkOutput OutputYAML) i (length commits) c st'
                     ltac:(done) ltac:(done) ltac:(done) ltac:(done) ltac:(done)) s)
      as [He _].
    by rewrite Hloop in He.
  - apply (runAnnotate_never is_encode); try done.
    + intros i n c st'. by apply processCommit_never.
    + intros st' _ _. destruct dryRun; by repeat constructor.
Qed.

Lemma C8_witness :
  List.filter is_print
    (events (runAnnotate (Scenario.healthy Scenario.one_commit) Scenario.cfg 1 "" "HEAD"
               false false (mkOutput OutputYAML) ∅)) =
  [ EvPrintf (LF +:+ "=== Annotation Complete ===" +:+ LF) [];
    EvPrintf ("Annotated: %d" +:+ LF) [PInt 1];
    EvPrintf ("Skipped: %d" +:+ LF) [PInt 0];
    EvPrintf ("Failed: %d" +:+ LF) [PInt 0];
    EvPrintln (LF +:+ "View annotations with: git log --show-notes=ai") ] /\
  List.filter is_encode
    (events (runAnnotate (Scenario.healthy Scenario.one_commit) Scenario.cfg 1 "" "HEAD"
               false false (mkOutput OutputYAML) ∅)) = [].
Proof.
  edestruct (C8_yaml_summary_is_text (Scenario.healthy Scenario.one_commit) Scenario.cfg
               1 "" "HEAD" false false ∅ [Scenario.c1]) as (Hev & Hquiet & Hnone);
    [reflexivity|discriminate|reflexivity|reflexivity|reflexivity|].
  split; [|by apply filter_encode_none].
  rewrite Hev. reflexivity.
Defined.

(** C9. When the commit selector returns no commit, the command returns
    success at once: all it has done is the [git log] and, in text mode,
    two progress lines; the configuration is not validated, no client is
    created, no summary is printed or encoded in any output mode, and the
    notes stay as they are, whatever the configuration is. *)
Theorem C9_no_commits_returns_early env cfg since from to dryRun force out s :
  value (getCommits env since from to s) = Done (inl []) ->
  let run := runAnnotate env cfg since from to dryRun force out s in
  value run = Done None /\
  exitCode None = 0 /\
  notes_after run = s /\
  events run =
    progress out ("Starting git history annotation..." +:+ LF) [] ++
    [EvExec "git" (log_args since from to)] ++
    progress out ("No commits to annotate." +:+ LF) [] /\
  Forall (fun e => is_ai e = false /\ is_encode e = false) (events run).
Proof.
  intros H run. unfold run. rewrite (run_no_commits _ _ _ _ _ _ _ _ _ H).
  repeat split. unfold events, progress. simpl.
  destruct (text_mode out); by repeat constructor.
Qed.

Lemma C9_witness :
  ai_ValidateConfig Scenario.nothing_to_do Scenario.cfg = Some (Errorf "API key is required") /\
  runAnnotate Scenario.nothing_to_do Scenario.cfg 10 "" "HEAD" false false
    (mkOutput OutputJSON) ∅ =
  (Done None, ∅,
   [EvExec "git" ["log"; "--format=%H%n%an <%ae>%n%ad%n%s"; "--no-merges"; "-n10"]]).
Proof.
  split; [reflexivity|].
  pose proof (C9_no_commits_returns_early Scenario.nothing_to_do Scenario.cfg 10 "" "HEAD"
                false false (mkOutput OutputJSON) ∅ eq_refl) as (Hv & _ & Hn & He & _).
  rewrite (run_eta (runAnnotate _ _ _ _ _ _ _ _ _)), Hv, Hn, He. reflexivity.
Defined.

(** C10. Every outcome, every progress line that shows a hash and every
    prompt carries the first 7 bytes of the commit hash, sliced without a
    length check.  The loop returns exactly when every hash has at least
    7 bytes: then no slice is out of range, and otherwise the loop
    panics with a slice out of range. *)
Theorem C10_short_hash_slices env cfg dryRun force out commits i n st s :
  let loop := processCommits env cfg dryRun force out i n commits st s in
  Forall (fun e => exists c, c ∈ commits /\ short_hash_event c e) (events loop) /\
  (Forall (fun c => (7 <= String.length (Hash c))%nat) commits ->
   exists st' rs,
     value loop = Done st' /\ st_results st' = st_results st ++ rs /\
     Forall2 (fun c r => res_Hash r = substring 0 7 (Hash c) /\
                         String.length (res_Hash r) = 7%nat) commits rs) /\
  (~ Forall (fun c => (7 <= String.length (Hash c))%nat) commits ->
   exists len, (len < 7)%nat /\ value loop = Panicked (SliceOutOfRange 7 len)).
Proof.
  intros loop. unfold loop. split; [|split].
  - apply (processCommits_events env cfg dryRun force out
             (fun e => exists c, c ∈ commits /\ short_hash_event c e) commits i n st).
    intros j c st' Hc. eapply obeys_weaken; [apply processCommit_events| |done].
    intros e He. by exists c.
  - intros Hall.
    destruct (returns_processCommits env cfg dryRun force out commits i n st Hall s)
      as [st' Hst'].
    destruct (processCommits_outcomes env cfg dryRun force out commits i n st s) as [_ Hv].
    destruct (Hv st' Hst') as (rs & Hres & Hrs & _). by exists st', rs.
  - apply processCommits_short.
Qed.

Lemma C10_witness :
  (exists st' rs,
     value (processCommits (Scenario.healthy Scenario.three_commits) Scenario.cfg true false
              (mkOutput OutputTable) 0 3 [Scenario.c1; Scenario.c2; Scenario.c3]
              loop_init ∅) = Done st' /\
     st_results st' = st_results loop_init ++ rs /\
     Forall2 (fun c r => res_Hash r = substring 0 7 (Hash c) /\
                         String.length (res_Hash r) = 7%nat)
       [Scenario.c1; Scenario.c2; Scenario.c3] rs) /\
  (exists len, (len < 7)%nat /\
     value (processCommits (Scenario.healthy Scenario.three_commits) Scenario.cfg true false
              (mkOutput OutputTable) 0 3 Scenario.short_hashed loop_init ∅) =
     Panicked (SliceOutOfRange 7 len)).
Proof.
  split.
  - apply (C10_short_hash_slices (Scenario.healthy Scenario.three_commits) Scenario.cfg
             true false (mkOutput OutputTable) [Scenario.c1; Scenario.c2; Scenario.c3]
             0 3 loop_init ∅).
    repeat constructor; vm_compute; lia.
  - apply (C10_short_hash_slices (Scenario.healthy Scenario.three_commits) Scenario.cfg
             true false (mkOutput OutputTable) Scenario.short_hashed 0 3 loop_init ∅).
    intros H. apply Forall_cons in H as [_ H]. apply Forall_cons in H as [H _].
    vm_compute in H. lia.
Defined.

(** ** Further properties *)

(** *** The footprint of the command *)

Lemma obeys_generateAnnotation_request (P : Event -> Prop) env cfg commit diff :
  P (EvServiceRun cfg (annotate_request commit diff)) ->
  obeys P (fun _ => True) (generateAnnotation env cfg commit diff).
Proof.
  intros H. unfold generateAnnotation.
  eapply obeys_bind; [apply obeys_slice_to|]. intros short [-> _].
  unfold AnnotateCommit in *. walk.
Qed.

Lemma obeys_addNote_pattern (P : Event -> Prop) env hash ref note :
  P (EvCreateTemp "arc-git-note-*.txt") ->
  (forall file, P (EvExec "git" ["notes"; "--ref"; ref; "add"; "-F"; file; hash])) ->
  (forall file, P (EvRemove file)) ->
  obeys P (fun _ => True) (addNote env hash ref note).
Proof. intros H1 H2 H3. unfold addNote. walk. Qed.

Ltac call_rule_request :=
  first
    [ apply obeys_slice_to
    | apply obeys_logProgress; intros ?
    | apply obeys_hasNote
    | apply obeys_getCommitDiff
    | apply obeys_generateAnnotation_request
    | apply obeys_addNote_pattern; intros ].

(** One iteration, event by event. *)
Lemma processCommit_all (P : Event -> Prop) env cfg dryRun force out i n c st :
  (text_mode out = true -> forall format args, P (EvPrintf format args)) ->
  P (EvExec "git" ["show"; "--format="; Hash c]) ->
  (force = false -> P (EvExec "git" ["notes"; "--ref"; "ai"; "show"; Hash c])) ->
  (forall diff, P (EvServiceRun cfg (annotate_request c diff))) ->
  (dryRun = false ->
   (forall file, P (EvExec "git" ["notes"; "--ref"; "ai"; "add"; "-F"; file; Hash c])) /\
   P (EvCreateTemp "arc-git-note-*.txt") /\
   (forall file, P (EvRemove file))) ->
  obeys P (fun _ => True) (processCommit env cfg dryRun force out i n c st).
Proof.
  intros Hprint Hshow Hcheck Hrun Hwrite.
  destruct dryRun, force; unfold processCommit;
    repeat first
      [ apply obeys_ret
      | apply obeys_bind_ret
      | eapply obeys_bind; [call_rule_request | intros ? ?]
      | case_match ];
    try done; auto; try (by apply Hwrite); try (by apply Hprint).
Qed.

(** The whole command, event by event. *)
Lemma runAnnotate_all (P : Event -> Prop) env cfg since from to dryRun force out :
  (text_mode out = true -> forall format args, P (EvPrintf format args)) ->
  P (EvExec "git" (log_args since from to)) ->
  P (EvValidateConfig cfg) -> P (EvNewClient cfg) ->
  (forall i n c st,
     obeys P (fun _ => True) (processCommit env cfg dryRun force out i n c st)) ->
  (forall n st, Is out OutputJSON = true -> P (EvEncodeJSON (summary_of dryRun n st))) ->
  (forall st, Is out OutputJSON = false -> Is out OutputQuiet = false ->
              Forall P (text_summary dryRun st)) ->
  obeys P (fun _ => True) (runAnnotate env cfg since from to dryRun force out).
Proof.
  intros Hprint Hlog Hval Hcli Hloop Hjson Htext. unfold runAnnotate.
  eapply obeys_bind; [by apply obeys_logProgress; auto|]. intros _ _.
  eapply obeys_bind; [by apply obeys_getCommits|]. intros r _.
  destruct r as [commits|err]; [|by apply obeys_ret].
  case_match.
  { eapply obeys_bind; [by apply obeys_logProgress; auto|]. intros _ _. by apply obeys_ret. }
  eapply obeys_bind; [by apply obeys_logProgress; auto|]. intros _ _.
  apply obeys_bind_emit; [done|]. case_match; [by apply obeys_ret|].
  apply obeys_bind_emit; [done|]. case_match; [by apply obeys_ret|].
  eapply obeys_bind; [apply processCommits_events; intros; apply Hloop|]. intros st _.
  apply obeys_outputResults; auto.
Qed.

Lemma text_mode_prints out :
  text_mode out = true -> Is out OutputQuiet = false /\ Is out OutputJSON = false.
Proof.
  unfold text_mode. destruct (Is out OutputQuiet), (Is out OutputJSON); simpl; by auto.
Qed.

(** The whole command, by what each kind of event may be. *)
Lemma runAnnotate_footprint env cfg since from to dryRun force out s :
  Forall (command_event cfg since from to dryRun force out)
    (events (runAnnotate env cfg since from to dryRun force out s)).
Proof.
  apply (runAnnotate_all (command_event cfg since from to dryRun force out)).
  - intros H format args. by apply text_mode_prints.
  - split; [done|]. by left.
  - done.
  - done.
  - intros i n c st. apply processCommit_all.
    + intros H format args. by apply text_mode_prints.
    + split; [done|]. right. left. by eexists.
    + intros ->. split; [done|]. right. right. left. split; [done|]. by eexists.
    + intros diff. split; [done|]. split; [done|]. by do 2 eexists.
    + intros ->. split; [|split]; [|done|done].
      intros file. split; [done|]. do 3 right. split; [done|]. by do 2 eexists.
  - intros n st H. by split.
  - intros st HJ HQ. unfold text_summary.
    destruct dryRun; repeat constructor; done.
Qed.

(** X1. Whatever the repository and the service answer, a run of the
    command consists of nothing but: lines printed (never in quiet or
    JSON mode); [git log] with the selector's arguments, [git show] of a
    commit, [git notes --ref ai show] (never when forced) and
    [git notes --ref ai add -F] (never in a dry run); the temporary file
    of a note, created and removed (never in a dry run); the check of the
    configuration and the client made of it; requests for a commit and a
    diff, all for that configuration and the fixed model; and, in JSON
    mode only, the encoded summary, whose dry_run field is the flag. *)
Theorem command_footprint env cfg since from to dryRun force out s :
  Forall (command_event cfg since from to dryRun force out)
    (events (runAnnotate env cfg since from to dryRun force out s)).
Proof. apply runAnnotate_footprint. Qed.

(** *** The flags *)

Lemma RunE_runAnnotate env aiCfg fl out s :
  RunE env aiCfg fl (inl out) s =
  runAnnotate env (effective aiCfg fl) (flag_since fl) (flag_from fl) (flag_to fl)
    (flag_dryRun fl) (flag_force fl) out s.
Proof.
  unfold RunE, effective. destruct aiCfg as [p k m].
  by destruct (String.eqb (flag_provider fl) ""), (String.eqb (flag_apiKey fl) ""),
       (String.eqb (flag_model fl) "").
Qed.

(** X2. [RunE] does nothing when the output flags do not resolve: it
    returns that error.  Otherwise the provider, API key and model flags
    that are not empty replace the fields of the loaded configuration
    (with none given it is used as it is), and that one configuration is
    what is validated, what the client is made of and what every request
    goes to; the model flag only changes its default model: every
    request names the fixed model of the prompt package. *)
Theorem RunE_flags env aiCfg fl s :
  (forall err, RunE env aiCfg fl (inr err) s = (Done (Some err), s, [])) /\
  (flag_provider fl = "" -> flag_apiKey fl = "" -> flag_model fl = "" ->
   effective aiCfg fl = aiCfg) /\
  (forall out,
     Forall (fun e =>
               match e with
               | EvValidateConfig c | EvNewClient c => c = effective aiCfg fl
               | EvServiceRun c opts =>
                   c = effective aiCfg fl /\ Model opts = "claude-sonnet-4-5-20250929"
               | _ => True
               end)
       (events (RunE env aiCfg fl (inl out) s))).
Proof.
  split; [done|]. split.
  - intros Hp Hk Hm. unfold effective. rewrite Hp, Hk, Hm. by destruct aiCfg.
  - intros out. rewrite RunE_runAnnotate.
    eapply Forall_impl; [apply runAnnotate_footprint|].
    intros [] He; simpl in *; try done. by destruct He as (-> & -> & _).
Qed.

Lemma RunE_flags_witness :
  RunE Scenario.flaky Scenario.cfg defaultFlags (inr (Errorf "unknown output format")) ∅ =
    (Done (Some (Errorf "unknown output format")), ∅, []) /\
  effective Scenario.cfg defaultFlags = Scenario.cfg.
Proof.
  destruct (RunE_flags Scenario.flaky Scenario.cfg defaultFlags ∅) as (Herr & Hsame & _).
  split; [apply Herr|]. apply Hsame; reflexivity.
Defined.

(** X3. In quiet mode a run prints nothing and encodes nothing,
    whatever happens. *)
Theorem quiet_prints_nothing env cfg since from to dryRun force s :
  Forall (fun e => is_print e = false /\ is_encode e = false)
    (events (runAnnotate env cfg since from to dryRun force (mkOutput OutputQuiet) s)).
Proof.
  eapply Forall_impl; [apply runAnnotate_footprint|].
  intros [] He; simpl in *; try done; by destruct He.
Qed.

(** *** The note writer *)

(** X4. [addNote] removes the temporary file it created on every
    path, as its last act, and creates none it does not remove; it runs
    [git notes add] only after the note text was written to the file; and
    it changes the notes only when it returns no error, and then by
    exactly the note of the commit under the ref. *)
Theorem addNote_cleans_up env hash ref note s :
  (forall tmp, os_CreateTemp env "arc-git-note-*.txt" = inl tmp ->
     last (events (addNote env hash ref note s)) = Some (EvRemove tmp) /\
     List.filter (fun e => match e with EvRemove _ => true | _ => false end)
       (events (addNote env hash ref note s)) = [EvRemove tmp]) /\
  (forall err, os_CreateTemp env "arc-git-note-*.txt" = inr err ->
     addNote env hash ref note s =
     (Done (Some (Errorf ("failed to create temp file: " +:+ Error err))), s,
      [EvCreateTemp "arc-git-note-*.txt"])) /\
  (forall tmp err, os_CreateTemp env "arc-git-note-*.txt" = inl tmp ->
     file_WriteString env tmp note = Some err ->
     Forall (fun e => is_note_write e = true -> exists p, e = EvCreateTemp p)
       (events (addNote env hash ref note s))) /\
  notes_after (addNote env hash ref note s) =
    match value (addNote env hash ref note s) with
    | Done None => <[(ref, hash) := note]> s
    | _ => s
    end.
Proof.
  split; [|split; [|split]].
  - intros tmp Htmp. unfold addNote, bind, emit, ret, getNotes, putNotes, events.
    rewrite Htmp. simpl.
    destruct (file_WriteString env tmp note); [done|]. simpl.
    by destruct (cmd_CombinedOutput env "git" _) as [[e o]|].
  - intros err Herr. unfold addNote, bind, emit, ret. simpl. by rewrite Herr.
  - intros tmp err Htmp Hw. unfold addNote, bind, emit, ret, events. simpl.
    rewrite Htmp, Hw. simpl. repeat constructor; simpl; try done. by eexists.
  - apply notes_addNote.
Qed.

Lemma addNote_cleans_up_witness :
  last (events (addNote (Scenario.healthy Scenario.one_commit) Scenario.h1 "ai"
                  "Adds x to the parser." ∅))
  = Some (EvRemove "/tmp/arc-git-note-1.txt").
Proof.
  destruct (addNote_cleans_up (Scenario.healthy Scenario.one_commit) Scenario.h1 "ai"
              "Adds x to the parser." ∅) as (Hremove & _).
  destruct (Hremove "/tmp/arc-git-note-1.txt" eq_refl) as [Hlast _]. exact Hlast.
Defined.

(** *** One iteration, in full *)

Ltac give_outcome Hv Hn shape :=
  split; [exact Hv|]; split; [exact Hn|]; split; [reflexivity|];
  split; [shape|]; split; [first [reflexivity | intros; congruence]|reflexivity].

(** The loop body on a commit whose hash is long enough: it returns, with
    one more outcome of the right shape and the counter of its status
    moved, and the notes are those the outcome tells. *)

Lemma step_spec env cfg dryRun force out i n c st s :
  (7 <= String.length (Hash c))%nat ->
  exists r da ds df,
    value (processCommit env cfg dryRun force out i n c st s) =
      Done (record_outcome st da ds df r) /\
    notes_after (processCommit env cfg dryRun force out i n c st s) = notes_with s c r /\
    res_Hash r = substring 0 7 (Hash c) /\
    outcome_shape dryRun r /\
    (negb force && noted s c = true -> r = already_annotated c) /\
    (da, ds, df) =
      (if String.eqb (res_Status r) "success" || String.eqb (res_Status r) "preview"
       then (1, 0, 0)
       else if String.eqb (res_Status r) "skipped" then (0, 1, 0) else (0, 0, 1)).
Proof.
  intros Hlong.
  destruct (negb force && noted s c) eqn:Hgate.
  { destruct (step_already_annotated env cfg dryRun force out i n c st s Hlong Hgate)
      as [Hv Hn].
    exists (already_annotated c), 0, 1, 0.
    give_outcome Hv Hn ltac:(right; right; left; repeat split; by left). }
  destruct (cmd_Output env "git" (show_args c)) as [diff|err] eqn:Hshow.
  2:{ destruct (step_diff_fails env cfg dryRun force out i n c st s Hlong err Hgate Hshow)
        as [Hv Hn].
      eexists _, 0, 0, 1.
      give_outcome Hv Hn ltac:(do 3 right; repeat split; eexists; by left). }
  destruct (Nat.eq_dec (String.length diff) 0%nat) as [Hlen|Hlen].
  { destruct (step_empty_diff env cfg dryRun force out i n c st s Hlong diff Hgate Hshow Hlen)
      as [Hv Hn].
    eexists _, 0, 1, 0.
    give_outcome Hv Hn ltac:(right; right; left; repeat split; by right). }
  destruct (service_Run env cfg (annotate_request c diff)) as [text|err] eqn:Hrun.
  2:{ destruct (step_generation_fails env cfg dryRun force out i n c st s Hlong diff err
                  Hgate Hshow Hlen Hrun) as [Hv Hn].
      eexists _, 0, 0, 1.
      give_outcome Hv Hn ltac:(do 3 right; repeat split; eexists; right; by left). }
  destruct dryRun eqn:Hdry.
  { destruct (step_preview env cfg true force out i n c st s Hlong diff text eq_refl
                Hgate Hshow Hlen Hrun) as [Hv Hn].
    eexists _, 1, 0, 0. give_outcome Hv Hn ltac:(right; by left). }
  destruct (returns_addNote env (Hash c) "ai" (TrimSpace text) s) as [[err|] Hadd].
  - destruct (step_note_fails env cfg false force out i n c st s Hlong diff text err
                eq_refl Hgate Hshow Hlen Hrun Hadd) as [Hv Hn].
    eexists _, 0, 0, 1.
    give_outcome Hv Hn ltac:(do 3 right; repeat split; eexists; right; by right).
  - destruct (step_success env cfg false force out i n c st s Hlong diff text
                eq_refl Hgate Hshow Hlen Hrun Hadd) as [Hv Hn].
    eexists _, 1, 0, 0. give_outcome Hv Hn ltac:(by left).
Qed.

(** *** The loop, in full *)

Lemma processCommits_Done_long env cfg dryRun force out commits i n st s st' :
  value (processCommits env cfg dryRun force out i n commits st s) = Done st' ->
  Forall (fun c => (7 <= String.length (Hash c))%nat) commits.
Proof.
  intros H. destruct (decide (Forall (fun c => (7 <= String.length (Hash c))%nat) commits))
    as [Hall|Hnot]; [done|].
  destruct (processCommits_short env cfg dryRun force out commits i n st s Hnot)
    as (len & _ & Hp).
  congruence.
Qed.

Lemma processCommits_spec env cfg dryRun force out commits : forall i n st s,
  Forall (fun c => (7 <= String.length (Hash c))%nat) commits ->
  exists st' rs,
    value (processCommits env cfg dryRun force out i n commits st s) = Done st' /\
    st_results st' = st_results st ++ rs /\
    notes_after (processCommits env cfg dryRun force out i n commits st s) =
      notes_with_all s commits rs /\
    Forall2 (fun c r => res_Hash r = substring 0 7 (Hash c) /\ outcome_shape dryRun r)
      commits rs.
Proof.
  induction commits as [|c commits IH]; intros i n st s Hall.
  - exists st, []. simpl. rewrite app_nil_r. repeat split. constructor.
  - apply Forall_cons in Hall as [Hc Hall].
    destruct (step_spec env cfg dryRun force out i n c st s Hc)
      as (r & da & ds & df & Hv & Hn & Hh & Hshape & _ & _).
    destruct (IH (S i) n (record_outcome st da ds df r) (notes_with s c r) Hall)
      as (st' & rs & Hv' & Hres & Hn' & Hrs).
    exists st', (r :: rs). simpl.
    rewrite value_bind, notes_bind, Hv, Hn. split; [done|]. split.
    + rewrite Hres. simpl. by rewrite <- app_assoc.
    + split; [done|]. by constructor.
Qed.

(** X5. Every outcome a completed loop has recorded has one of four
    shapes: "success" (not in a dry run) or "preview" (only in a dry
    run), with the annotation and no message; "skipped", with no
    annotation and one of the two skip messages; "failed", with no
    annotation and a message that starts with the failing stage. *)
Theorem outcomes_have_shape env cfg dryRun force out commits s st' :
  value (processCommits env cfg dryRun force out 0 (length commits) commits loop_init s)
    = Done st' ->
  Forall (outcome_shape dryRun) (st_results st').
Proof.
  intros H.
  destruct (processCommits_spec env cfg dryRun force out commits 0 (length commits)
              loop_init s (processCommits_Done_long _ _ _ _ _ _ _ _ _ _ _ H))
    as (st2 & rs & Hv & Hres & _ & Hrs).
  rewrite H in Hv. injection Hv as <-. rewrite Hres. simpl.
  clear -Hrs. induction Hrs as [|c r cs rs [_ Hr] _ IH]; by constructor.
Qed.

Lemma outcomes_have_shape_witness :
  exists st',
    value (processCommits Scenario.flaky Scenario.cfg false false (mkOutput OutputTable)
             0 3 [Scenario.c1; Scenario.c2; Scenario.c3] loop_init ∅) = Done st' /\
    Forall (outcome_shape false) (st_results st').
Proof.
  eexists. split; [reflexivity|].
  exact (outcomes_have_shape Scenario.flaky Scenario.cfg false false (mkOutput OutputTable)
           [Scenario.c1; Scenario.c2; Scenario.c3] ∅ _ eq_refl).
Defined.

(** X6. After a loop that completes, the notes are the notes before
    it with, for each commit whose outcome is "success" and in order, the
    reported annotation put under the ref "ai" at the commit's full hash;
    the other outcomes leave no trace in the notes. *)
Theorem notes_are_the_successes env cfg dryRun force out commits s st' :
  value (processCommits env cfg dryRun force out 0 (length commits) commits loop_init s)
    = Done st' ->
  length (st_results st') = length commits /\
  notes_after (processCommits env cfg dryRun force out 0 (length commits) commits loop_init s)
    = notes_with_all s commits (st_results st').
Proof.
  intros H.
  destruct (processCommits_spec env cfg dryRun force out commits 0 (length commits)
              loop_init s (processCommits_Done_long _ _ _ _ _ _ _ _ _ _ _ H))
    as (st2 & rs & Hv & Hres & Hn & Hrs).
  rewrite H in Hv. injection Hv as <-. rewrite Hres. simpl. split; [|done].
  symmetry. by eapply Forall2_length.
Qed.

Lemma notes_are_the_successes_witness :
  notes_after (processCommits (Scenario.healthy Scenario.three_commits) Scenario.cfg false
                 false (mkOutput OutputTable) 0 2 [Scenario.c1; Scenario.c2] loop_init ∅)
  = <[("ai", Scenario.h2) := "Adds x to the parser."]>
      (<[("ai", Scenario.h1) := "Adds x to the parser."]> ∅).
Proof.
  pose proof (notes_are_the_successes (Scenario.healthy Scenario.three_commits)
                Scenario.cfg false false (mkOutput OutputTable)
                [Scenario.c1; Scenario.c2] ∅ _ eq_refl) as [_ H].
  etransitivity; [|etransitivity; [exact H|]]; reflexivity.
Defined.

(** *** The notes a run leaves alone *)

Lemma touches_keeps {A} K (m : M A) : keeps_notes m -> touches_only K m.
Proof. intros H s. split; [intros k _|intros k Hk]; by rewrite H. Qed.

Lemma touches_bind {A B} K (m : M A) (k : A -> M B) :
  touches_only K m -> (forall a, touches_only K (k a)) -> touches_only K (bind m k).
Proof.
  intros Hm Hk s. rewrite notes_bind. destruct (Hm s) as [Hm1 Hm2].
  destruct (value (m s)) as [a|p]; [|done].
  destruct (Hk a (notes_after (m s))) as [Hk1 Hk2]. split.
  - intros key Hkey. by rewrite Hk1, Hm1.
  - auto.
Qed.

Lemma touches_addNote K env hash ref note :
  K (ref, hash) -> touches_only K (addNote env hash ref note).
Proof.
  intros HK s. rewrite notes_addNote.
  destruct (value (addNote env hash ref note s)) as [[err|]|p]; try done. split.
  - intros key Hkey. apply lookup_insert_ne. by intros <-.
  - intros key Hsome. destruct (decide ((ref, hash) = key)) as [<-|Hne].
    + rewrite lookup_insert_eq. by eexists.
    + by rewrite lookup_insert_ne.
Qed.

Lemma touches_processCommit K env cfg dryRun force out i n c st :
  K ("ai", Hash c) -> touches_only K (processCommit env cfg dryRun force out i n c st).
Proof.
  intros HK. unfold processCommit.
  repeat first
    [ apply touches_keeps; solve [auto with go]
    | apply touches_addNote; assumption
    | apply touches_bind; [|intros ?]
    | case_match ].
Qed.

Lemma touches_processCommits K env cfg dryRun force out commits : forall i n st,
  (forall c, c ∈ commits -> K ("ai", Hash c)) ->
  touches_only K (processCommits env cfg dryRun force out i n commits st).
Proof.
  induction commits as [|c commits IH]; intros i n st HK; simpl.
  - apply touches_keeps. auto with go.
  - apply touches_bind.
    + apply touches_processCommit. apply HK. by left.
    + intros st'. apply IH. intros c' Hc'. apply HK. by right.
Qed.

(** X7. Whether it completes or panics, the loop changes no note but
    those under the ref "ai" at the full hashes of the commits it was
    given, and removes no note at all. *)
Theorem loop_touches_only_its_commits env cfg dryRun force out commits i n st s :
  (forall ref hash,
     ~ (ref = "ai" /\ exists c, c ∈ commits /\ hash = Hash c) ->
     notes_after (processCommits env cfg dryRun force out i n commits st s) !! (ref, hash)
     = s !! (ref, hash)) /\
  (forall k, is_Some (s !! k) ->
     is_Some (notes_after (processCommits env cfg dryRun force out i n commits st s) !! k)).
Proof.
  destruct (touches_processCommits
              (fun k => k.1 = "ai" /\ exists c, c ∈ commits /\ k.2 = Hash c)
              env cfg dryRun force out commits i n st) with (s := s) as [H1 H2].
  { intros c Hc. split; [done|]. by exists c. }
  split; [|done]. intros ref hash Hk. by apply H1.
Qed.

Lemma loop_touches_only_its_commits_witness :
  notes_after (processCommits (Scenario.healthy Scenario.three_commits) Scenario.cfg false
                 false (mkOutput OutputTable) 0 1 [Scenario.c1] loop_init
                 Scenario.annotated_c1) !! ("ai", Scenario.h2)
  = Scenario.annotated_c1 !! ("ai", Scenario.h2).
Proof.
  destruct (loop_touches_only_its_commits (Scenario.healthy Scenario.three_commits)
              Scenario.cfg false false (mkOutput OutputTable) [Scenario.c1] 0 1 loop_init
              Scenario.annotated_c1) as [Hframe _].
  apply Hframe. intros [_ (c & Hc & Hhash)].
  apply list_elem_of_singleton in Hc as ->. discriminate.
Defined.

Lemma keeps_touches_run K env cfg since from to dryRun force out :
  (forall hash, K ("ai", hash)) ->
  touches_only K (runAnnotate env cfg since from to dryRun force out).
Proof.
  intros HK. unfold runAnnotate.
  repeat first
    [ apply touches_processCommits; intros; apply HK
    | apply touches_keeps; first [apply keeps_outputResults | solve [auto with go]]
    | apply touches_bind; [|intros ?]
    | case_match ].
Qed.

(** X8. A run of the command, however it ends, changes no note under a
    ref other than "ai" and removes no note. *)
Theorem run_touches_only_ai env cfg since from to dryRun force out s :
  (forall ref hash, ref <> "ai" ->
     notes_after (runAnnotate env cfg since from to dryRun force out s) !! (ref, hash)
     = s !! (ref, hash)) /\
  (forall k, is_Some (s !! k) ->
     is_Some (notes_after (runAnnotate env cfg since from to dryRun force out s) !! k)).
Proof.
  destruct (keeps_touches_run (fun k => k.1 = "ai") env cfg since from to dryRun force out)
    with (s := s) as [H1 H2]; [done|].
  split; [|done]. intros ref hash Href. by apply H1.
Qed.

Lemma run_touches_only_ai_witness :
  notes_after (runAnnotate (Scenario.healthy Scenario.three_commits) Scenario.cfg 10 ""
                 "HEAD" false true (mkOutput OutputTable)
                 {[ ("review", Scenario.h1) := "Looks good." ]}) !! ("review", Scenario.h1)
  = Some "Looks good.".
Proof.
  destruct (run_touches_only_ai (Scenario.healthy Scenario.three_commits) Scenario.cfg 10 ""
              "HEAD" false true (mkOutput OutputTable)
              {[ ("review", Scenario.h1) := "Looks good." ]}) as [Hframe _].
  rewrite Hframe; [reflexivity|discriminate].
Defined.

(** *** The gate and the notes *)

Lemma noted_notes_with s c c' r : noted s c = true -> noted (notes_with s c' r) c = true.
Proof.
  unfold noted, notes_with. intros H.
  destruct (String.eqb (res_Status r) "success"); [|done].
  destruct (decide (("ai", Hash c') = ("ai", Hash c))) as [->|Hne].
  - by rewrite lookup_insert_eq.
  - by rewrite lookup_insert_ne.
Qed.

Lemma noted_notes_with_all c : forall commits rs s,
  noted s c = true -> noted (notes_with_all s commits rs) c = true.
Proof.
  induction commits as [|c' commits IH]; intros [|r rs] s H; simpl; try done.
  apply IH. by apply noted_notes_with.
Qed.

Lemma successes_noted : forall commits rs s,
  length commits = length rs ->
  Forall2 (fun c r => res_Status r = "success" ->
                      noted (notes_with_all s commits rs) c = true) commits rs.
Proof.
  induction commits as [|c commits IH]; intros [|r rs] s Hlen; simpl in *; try done.
  constructor; [|apply IH; lia].
  intros Hs. apply noted_notes_with_all. unfold noted, notes_with.
  rewrite Hs, String.eqb_refl. by rewrite lookup_insert_eq.
Qed.

(** An unforced loop from notes [s]: every commit noted in [s] is stopped
    by the gate, whatever the commits before it did to the notes. *)
Lemma loop_skips_noted env cfg dryRun out commits : forall i n st s,
  Forall (fun c => (7 <= String.length (Hash c))%nat) commits ->
  exists st' rs,
    value (processCommits env cfg dryRun false out i n commits st s) = Done st' /\
    st_results st' = st_results st ++ rs /\
    Forall2 (fun c r => noted s c = true -> r = already_annotated c) commits rs.
Proof.
  induction commits as [|c commits IH]; intros i n st s Hall.
  - exists st, []. simpl. rewrite app_nil_r. repeat split. constructor.
  - apply Forall_cons in Hall as [Hc Hall].
    destruct (step_spec env cfg dryRun false out i n c st s Hc)
      as (r & da & ds & df & Hv & Hn & _ & _ & Hgate & _).
    destruct (IH (S i) n (record_outcome st da ds df r) (notes_with s c r) Hall)
      as (st' & rs & Hv' & Hres & Hrs).
    exists st', (r :: rs). simpl. rewrite value_bind, Hv, Hn. split; [done|]. split.
    + rewrite Hres. simpl. by rewrite <- app_assoc.
    + constructor; [exact Hgate|].
      eapply Forall2_impl; [exact Hrs|]. intros c' r' H Hnoted.
      apply H. by apply noted_notes_with.
Qed.

(** X9. In a loop that is not forced and completes, every commit that
    had a note under "ai" at its full hash when the loop started is
    recorded as skipped, "already annotated", with its 7-byte hash:
    nothing the loop does before it reaches the commit takes the note
    away. *)
Theorem unforced_loop_skips_noted env cfg dryRun out commits s st' :
  value (processCommits env cfg dryRun false out 0 (length commits) commits loop_init s)
    = Done st' ->
  Forall2 (fun c r => noted s c = true -> r = already_annotated c)
    commits (st_results st').
Proof.
  intros H.
  destruct (loop_skips_noted env cfg dryRun out commits 0 (length commits) loop_init s
              (processCommits_Done_long _ _ _ _ _ _ _ _ _ _ _ H))
    as (st2 & rs & Hv & Hres & Hrs).
  rewrite H in Hv. injection Hv as <-. by rewrite Hres.
Qed.

Lemma unforced_loop_skips_noted_witness :
  Forall2 (fun c r => noted Scenario.annotated_c1 c = true -> r = already_annotated c)
    [Scenario.c1; Scenario.c2]
    [already_annotated Scenario.c1;
     mkResult "2222222" "success" "" "Adds x to the parser."].
Proof.
  exact (unforced_loop_skips_noted (Scenario.healthy Scenario.three_commits) Scenario.cfg
           false (mkOutput OutputTable) [Scenario.c1; Scenario.c2]
           Scenario.annotated_c1 _ eq_refl).
Defined.

(** One iteration the gate stops, in full. *)
Lemma step_gated_run env cfg dryRun out i n c st s :
  (7 <= String.length (Hash c))%nat -> noted s c = true ->
  processCommit env cfg dryRun false out i n c st s =
  ( Done (record_outcome st 0 1 0 (already_annotated c)), s,
    progress out processing_format
      [PInt (Z.of_nat i + 1); PInt (Z.of_nat n); PStr (substring 0 7 (Hash c))] ++
    [EvExec "git" ["notes"; "--ref"; "ai"; "show"; Hash c]] ++
    progress out ("  Already annotated (use --force to re-annotate)" +:+ LF) [] ).
Proof.
  intros Hlong Hnoted. unfold processCommit. rewrite !slice_to_ok by done.
  rewrite bind_ret. etransitivity.
  { eapply bind_run; [apply logProgress_run|].
    eapply bind_run; [reflexivity|]. cbv beta. fold (noted s c). rewrite Hnoted.
    eapply bind_run; [apply logProgress_run|]. rewrite bind_ret. reflexivity. }
  unfold record_outcome, already_annotated. rewrite !Z.add_0_r, !app_nil_r. reflexivity.
Qed.

Lemma all_noted_run env cfg dryRun out commits : forall i n st s,
  Forall (fun c => (7 <= String.length (Hash c))%nat /\ noted s c = true) commits ->
  exists evs,
    processCommits env cfg dryRun false out i n commits st s =
    ( Done {| st_annotated := st_annotated st;
              st_skipped := st_skipped st + Z.of_nat (length commits);
              st_failed := st_failed st;
              st_results := st_results st ++ (already_annotated <$> commits) |}, s, evs ) /\
    Forall (fun e => is_print e = true \/ is_note_check e = true) evs /\
    length (List.filter is_note_check evs) = length commits.
Proof.
  induction commits as [|c commits IH]; intros i n st s Hall.
  - exists []. simpl. unfold ret. rewrite app_nil_r, Z.add_0_r. by destruct st.
  - apply Forall_cons in Hall as [[Hlong Hnoted] Hall].
    destruct (IH (S i) n (record_outcome st 0 1 0 (already_annotated c)) s Hall)
      as (evs & Hrest & Hevs & Hcount).
    eexists. split; [|split].
    + simpl. eapply bind_run; [by apply step_gated_run|]. rewrite Hrest.
      unfold record_outcome. simpl. rewrite <- app_assoc. simpl.
      do 3 f_equal. f_equal; first [lia | done].
    + apply Forall_app. split; [|done]. unfold progress.
      destruct (text_mode out); simpl;
        repeat (apply Forall_cons; split; [first [by left | by right]|]); by constructor.
    + rewrite List.filter_app, length_app, Hcount. unfold progress.
      by destruct (text_mode out).
Qed.

(** X10. A loop that is not forced, over commits that all have a note,
    is idle: every commit is recorded as "already annotated" and counted
    as skipped, the notes stay as they are, and the loop does nothing but
    print and check for the notes, once per commit: it reads no diff,
    sends no request and writes no note. *)
Theorem all_noted_loop_is_idle env cfg dryRun out commits s :
  Forall (fun c => (7 <= String.length (Hash c))%nat /\ noted s c = true) commits ->
  exists evs,
    processCommits env cfg dryRun false out 0 (length commits) commits loop_init s =
    ( Done {| st_annotated := 0;
              st_skipped := Z.of_nat (length commits);
              st_failed := 0;
              st_results := already_annotated <$> commits |}, s, evs ) /\
    Forall (fun e => is_print e = true \/ is_note_check e = true) evs /\
    length (List.filter is_note_check evs) = length commits.
Proof.
  intros H. exact (all_noted_run env cfg dryRun out commits 0 (length commits) loop_init s H).
Qed.

Lemma all_noted_loop_is_idle_witness :
  exists evs,
    processCommits Scenario.flaky Scenario.cfg false false (mkOutput OutputTable) 0 1
      [Scenario.c1] loop_init Scenario.annotated_c1 =
    ( Done {| st_annotated := 0; st_skipped := 1; st_failed := 0;
              st_results := [already_annotated Scenario.c1] |},
      Scenario.annotated_c1, evs ) /\
    Forall (fun e => is_print e = true \/ is_note_check e = true) evs /\
    length (List.filter is_note_check evs) = 1%nat.
Proof.
  apply (all_noted_loop_is_idle Scenario.flaky Scenario.cfg false (mkOutput OutputTable)
           [Scenario.c1] Scenario.annotated_c1).
  repeat constructor.
Defined.

(** X11. After a loop that completed, a second loop over the same
    commits that is not forced, whatever its other flags and whatever the
    repository and the service answer this time, completes too, and records as "already annotated" every commit whose outcome
    in the first loop was "success": the gate looks for the note where
    the first loop has put it. *)
Theorem second_run_skips_successes env cfg dryRun force out env' cfg' dryRun' out'
    commits s st1 :
  value (processCommits env cfg dryRun force out 0 (length commits) commits loop_init s)
    = Done st1 ->
  exists st2,
    value (processCommits env' cfg' dryRun' false out' 0 (length commits) commits loop_init
             (notes_after (processCommits env cfg dryRun force out 0 (length commits)
                             commits loop_init s)))
      = Done st2 /\
    forall j c r,
      commits !! j = Some c -> st_results st1 !! j = Some r ->
      res_Status r = "success" ->
      st_results st2 !! j = Some (already_annotated c).
Proof.
  intros H.
  pose proof (processCommits_Done_long _ _ _ _ _ _ _ _ _ _ _ H) as Hlong.
  destruct (processCommits_spec env cfg dryRun force out commits 0 (length commits)
              loop_init s Hlong) as (st & rs & Hv & Hres & Hn & Hrs).
  rewrite H in Hv. injection Hv as <-. simpl in Hres.
  destruct (loop_skips_noted env' cfg' dryRun' out' commits 0 (length commits) loop_init
              (notes_with_all s commits rs) Hlong) as (st2 & rs2 & Hv2 & Hres2 & Hrs2).
  exists st2. rewrite Hn. split; [done|].
  intros j c r Hc Hr Hs. rewrite Hres in Hr. rewrite Hres2. simpl.
  destruct (Forall2_lookup_l _ _ _ _ _ Hrs2 Hc) as (r2 & Hr2 & Hskip).
  rewrite Hr2. f_equal. apply Hskip.
  pose proof (successes_noted commits rs s (Forall2_length _ _ _ Hrs)) as Hnoted.
  exact (Forall2_lookup_lr _ _ _ _ _ _ Hnoted Hc Hr Hs).
Qed.

Lemma second_run_skips_successes_witness :
  exists st2,
    value (processCommits Scenario.flaky Scenario.cfg true false (mkOutput OutputJSON) 0 2
             [Scenario.c1; Scenario.c2] loop_init
             (notes_after (processCommits (Scenario.healthy Scenario.three_commits)
                             Scenario.cfg false false (mkOutput OutputTable) 0 2
                             [Scenario.c1; Scenario.c2] loop_init ∅)))
      = Done st2 /\
    st_results st2 !! 0%nat = Some (already_annotated Scenario.c1) /\
    st_results st2 !! 1%nat = Some (already_annotated Scenario.c2).
Proof.
  edestruct (second_run_skips_successes (Scenario.healthy Scenario.three_commits)
               Scenario.cfg false false (mkOutput OutputTable)
               Scenario.flaky Scenario.cfg true (mkOutput OutputJSON)
               [Scenario.c1; Scenario.c2] ∅) as (st2 & Hv & Hskip); [reflexivity|].
  exists st2. split; [exact Hv|].
  split; eapply Hskip; reflexivity.
Defined.

(** *** The commit selector, read back *)

Lemma append_assoc (a b c : string) : (a +:+ b) +:+ c = a +:+ b +:+ c.
Proof.
  induction a as [|x a IH]; [done|].
  change ((String x a +:+ b) +:+ c) with (String x ((a +:+ b) +:+ c)).
  by rewrite IH.
Qed.

Lemma list_ascii_append a b :
  list_ascii_of_string (a +:+ b) = list_ascii_of_string a ++ list_ascii_of_string b.
Proof.
  induction a as [|x a IH]; [done|].
  change (String x a +:+ b) with (String x (a +:+ b)).
  cbn [list_ascii_of_string app]. by rewrite IH.
Qed.

Lemma bytes_append a b : bytes (a +:+ b) = bytes a ++ bytes b.
Proof. unfold bytes. by rewrite list_ascii_append, fmap_app. Qed.

Lemma of_bytes_bytes s : of_bytes (bytes s) = s.
Proof.
  unfold of_bytes, bytes. rewrite <- (string_of_list_ascii_of_string s) at 2. f_equal.
  induction (list_ascii_of_string s) as [|a l IH]; [done|].
  cbn [fmap list_fmap]. f_equal; [apply ascii_N_embedding|exact IH].
Qed.

Lemma trimLeft_plain fuel bs : leadingSpace bs = 0%nat -> trimLeft fuel bs = bs.
Proof. intros H. destruct fuel; [done|]. simpl. by rewrite H. Qed.

Lemma trimRight_plain fuel bs : trailingSpace bs = 0%nat -> trimRight fuel bs = bs.
Proof. intros H. destruct fuel; [done|]. simpl. by rewrite H. Qed.

Lemma trailingSpace_LF bs : trailingSpace (bs ++ [10%N]) = 1%nat.
Proof.
  unfold trailingSpace. rewrite length_app. simpl length.
  replace (length bs + 1 - 1)%nat with (length bs) by lia.
  by rewrite drop_app_length.
Qed.

(** [TrimSpace] on text that ends with one line feed and has no other
    white space at its ends: the line feed goes, nothing else. *)
Lemma TrimSpace_final_LF body :
  leadingSpace (bytes (body +:+ LF)) = 0%nat ->
  trailingSpace (bytes body) = 0%nat ->
  TrimSpace (body +:+ LF) = body.
Proof.
  intros Hl Hr. unfold TrimSpace. rewrite trimLeft_plain by done.
  rewrite bytes_append. change (bytes LF) with [10%N].
  rewrite length_app. simpl length. rewrite Nat.add_1_r.
  cbn [trimRight]. rewrite trailingSpace_LF.
  rewrite length_app. simpl length.
  replace (length (bytes body) + 1 - 1)%nat with (length (bytes body)) by lia.
  rewrite take_app_length, trimRight_plain by done. apply of_bytes_bytes.
Qed.

Lemma Split_nil sep : Split "" sep = [""].
Proof. done. Qed.

Lemma Split_cons x rest sep :
  Split (String x rest) sep =
  if Ascii.eqb x sep then "" :: Split rest sep
  else match Split rest sep with
       | piece :: pieces => String x piece :: pieces
       | [] => [String x ""]
       end.
Proof. done. Qed.

Lemma no_LF_cons x a :
  no_LF (String x a) = true -> Ascii.eqb x "010" = false /\ no_LF a = true.
Proof.
  unfold no_LF. simpl. intros H. apply andb_true_iff in H as [Hx Ha].
  split; [|done]. by destruct (Ascii.eqb x "010").
Qed.

Lemma Split_one a : no_LF a = true -> Split a "010" = [a].
Proof.
  induction a as [|x a IH]; intros H; [done|].
  apply no_LF_cons in H as [Hx Ha]. by rewrite Split_cons, Hx, IH.
Qed.

Lemma Split_line a rest :
  no_LF a = true -> Split (a +:+ LF +:+ rest) "010" = a :: Split rest "010".
Proof.
  induction a as [|x a IH]; intros H; [done|].
  apply no_LF_cons in H as [Hx Ha].
  change (String x a +:+ LF +:+ rest) with (String x (a +:+ LF +:+ rest)).
  by rewrite Split_cons, Hx, IH.
Qed.

(** [strings.Split] undoes the joining of lines that hold no line feed. *)
Lemma Split_joined lines :
  lines <> [] -> Forall (fun l => no_LF l = true) lines ->
  Split (joined lines) "010" = lines.
Proof.
  induction lines as [|l lines IH]; intros Hne Hall; [done|].
  apply Forall_cons in Hall as [Hl Hall].
  destruct lines as [|l' lines]; [by apply Split_one|].
  change (joined (l :: l' :: lines)) with (l +:+ LF +:+ joined (l' :: lines)).
  rewrite Split_line by done. by rewrite IH.
Qed.

Lemma unlines_joined lines : lines <> [] -> unlines lines = joined lines +:+ LF.
Proof.
  induction lines as [|l lines IH]; intros Hne; [done|].
  destruct lines as [|l' lines]; [done|].
  change (unlines (l :: l' :: lines)) with (l +:+ LF +:+ unlines (l' :: lines)).
  change (joined (l :: l' :: lines)) with (l +:+ LF +:+ joined (l' :: lines)).
  rewrite IH by done. by rewrite !append_assoc.
Qed.

Lemma log_lines_nil cs : log_lines cs = [] -> cs = [].
Proof. by destruct cs. Qed.

(** X12. The commit selector reads back what [git log] has printed:
    when the output is the records of the commits, four lines each and
    every line ended by a line feed, no hash is empty, no field holds a
    line feed, and the output neither starts with white space nor, its
    final line feed apart, ends with white space, the selector returns
    exactly these commits, in the order of the log. *)
Theorem getCommits_reads_back env since from to s cs :
  cmd_Output env "git" (log_args since from to) = inl (unlines (log_lines cs)) ->
  Forall (fun c => Hash c <> "") cs ->
  Forall (fun l => no_LF l = true) (log_lines cs) ->
  leadingSpace (bytes (unlines (log_lines cs))) = 0%nat ->
  trailingSpace (bytes (joined (log_lines cs))) = 0%nat ->
  value (getCommits env since from to s) = Done (inl cs).
Proof.
  intros Hout Hhash Hlines Hstart Hend.
  apply (getCommits_truncates env since from to s (unlines (log_lines cs)) cs
           (if decide (cs = []) then [""] else [])); [done| |done|].
  - destruct (decide (cs = [])) as [->|Hne]; [done|].
    assert (log_lines cs <> []) as Hne' by (intros H; by apply log_lines_nil in H).
    rewrite unlines_joined in * by done.
    rewrite TrimSpace_final_LF by done.
    rewrite Split_joined by done. by rewrite app_nil_r.
  - destruct (decide (cs = [])); [by right|]. left. simpl. lia.
Qed.

Lemma getCommits_reads_back_witness :
  value (getCommits (Scenario.healthy Scenario.three_commits) 10 "" "HEAD" ∅) =
  Done (inl [Scenario.c1; Scenario.c2; Scenario.c3]).
Proof.
  apply (getCommits_reads_back (Scenario.healthy Scenario.three_commits) 10 "" "HEAD" ∅
           [Scenario.c1; Scenario.c2; Scenario.c3]).
  - reflexivity.
  - repeat constructor; discriminate.
  - repeat constructor.
  - reflexivity.
  - reflexivity.
Defined.

(** X13. Output of [git log] that is empty or all white space selects
    no commit: the one empty line [strings.Split] returns is no record. *)
Theorem getCommits_blank_output env since from to s out :
  cmd_Output env "git" (log_args since from to) = inl out ->
  TrimSpace out = "" ->
  getCommits env since from to s =
  (Done (inl []), s, [EvExec "git" (log_args since from to)]).
Proof.
  intros Hout Hblank. by rewrite getCommits_eq, Hout, Hblank.
Qed.

Lemma getCommits_blank_output_witness :
  getCommits (Scenario.healthy (" " +:+ LF +:+ LF)) 10 "" "HEAD" ∅ =
  (Done (inl []), ∅, [EvExec "git" (log_args 10 "" "HEAD")]).
Proof.
  apply (getCommits_blank_output (Scenario.healthy (" " +:+ LF +:+ LF)) 10 "" "HEAD" ∅
           (" " +:+ LF +:+ LF)); reflexivity.
Defined.

(** X14. The range flags exclude each other: without [--from] the
    value of [--to] changes nothing in a run, and with [--from] the value
    of [--since] changes nothing. *)
Theorem range_flags_exclude env cfg dryRun force out s :
  (forall since to to',
     runAnnotate env cfg since "" to dryRun force out s =
     runAnnotate env cfg since "" to' dryRun force out s) /\
  (forall since since' from to, from <> "" ->
     runAnnotate env cfg since from to dryRun force out s =
     runAnnotate env cfg since' from to dryRun force out s).
Proof.
  split.
  - reflexivity.
  - intros since since' from to Hfrom. unfold runAnnotate, getCommits.
    apply String.eqb_neq in Hfrom. by rewrite Hfrom.
Qed.

Lemma range_flags_exclude_witness :
  runAnnotate Scenario.flaky Scenario.cfg 10 "HEAD~20" "HEAD" false false
    (mkOutput OutputTable) ∅ =
  runAnnotate Scenario.flaky Scenario.cfg 3 "HEAD~20" "HEAD" false false
    (mkOutput OutputTable) ∅.
Proof.
  destruct (range_flags_exclude Scenario.flaky Scenario.cfg false false
              (mkOutput OutputTable) ∅) as [_ Hsince].
  apply Hsince. discriminate.
Defined.

(** *** The output mode and the work *)

Lemma same_refl {A} (m : M A) : same_but_prints m m.
Proof. by intros s. Qed.

Lemma same_bind {A B} (m1 m2 : M A) (k1 k2 : A -> M B) :
  same_but_prints m1 m2 -> (forall a, same_but_prints (k1 a) (k2 a)) ->
  same_but_prints (bind m1 k1) (bind m2 k2).
Proof.
  intros Hm Hk s. destruct (Hm s) as (Hv & Hn & He).
  rewrite !value_bind, !notes_bind, !events_bind. unfold unprinted in *.
  rewrite !List.filter_app, He, <- Hv, <- Hn.
  destruct (value (m1 s)) as [a|p]; [|done].
  destruct (Hk a (notes_after (m1 s))) as (Hv' & Hn' & He').
  unfold unprinted in He'. by rewrite Hv', Hn', He'.
Qed.

Lemma same_logProgress out1 out2 format args :
  same_but_prints (logProgress out1 format args) (logProgress out2 format args).
Proof.
  intros s. rewrite !logProgress_run. unfold progress, unprinted.
  by destruct (text_mode out1), (text_mode out2).
Qed.

Ltac same_walk :=
  repeat first
    [ apply same_logProgress
    | apply same_refl
    | apply same_bind; [|intros ?]
    | case_match ].

Lemma same_processCommit env cfg dryRun force out1 out2 i n c st :
  same_but_prints (processCommit env cfg dryRun force out1 i n c st)
                  (processCommit env cfg dryRun force out2 i n c st).
Proof. unfold processCommit. same_walk. Qed.

Lemma same_processCommits env cfg dryRun force out1 out2 commits : forall i n st,
  same_but_prints (processCommits env cfg dryRun force out1 i n commits st)
                  (processCommits env cfg dryRun force out2 i n commits st).
Proof.
  induction commits as [|c commits IH]; intros i n st; simpl; [apply same_refl|].
  apply same_bind; [apply same_processCommit|]. intros st'. apply IH.
Qed.

Lemma same_outputResults env dryRun out1 out2 n st :
  Is out1 OutputJSON = false -> Is out2 OutputJSON = false ->
  same_but_prints (outputResults env dryRun out1 n st) (outputResults env dryRun out2 n st).
Proof.
  intros H1 H2 s. rewrite !outputResults_run, H1, H2. unfold value, notes_after, events.
  simpl. repeat split. unfold text_summary, unprinted.
  by destruct (Is out1 OutputQuiet), (Is out2 OutputQuiet), dryRun.
Qed.

Lemma same_runAnnotate env cfg since from to dryRun force out1 out2 :
  Is out1 OutputJSON = false -> Is out2 OutputJSON = false ->
  same_but_prints (runAnnotate env cfg since from to dryRun force out1)
                  (runAnnotate env cfg since from to dryRun force out2).
Proof.
  intros H1 H2. unfold runAnnotate.
  repeat first
    [ apply same_logProgress
    | apply same_processCommits
    | by apply same_outputResults
    | apply same_refl
    | apply same_bind; [|intros ?]
    | case_match ].
Qed.

(** X15. The output mode decides what is printed and nothing else:
    two runs that differ only in the mode, neither of them JSON, return
    the same, whether an error or a panic, leave the same notes, and do
    the same things in the same order but for the lines they print. *)
Theorem output_mode_only_prints env cfg since from to dryRun force out1 out2 s :
  Is out1 OutputJSON = false -> Is out2 OutputJSON = false ->
  value (runAnnotate env cfg since from to dryRun force out1 s) =
    value (runAnnotate env cfg since from to dryRun force out2 s) /\
  notes_after (runAnnotate env cfg since from to dryRun force out1 s) =
    notes_after (runAnnotate env cfg since from to dryRun force out2 s) /\
  unprinted (events (runAnnotate env cfg since from to dryRun force out1 s)) =
    unprinted (events (runAnnotate env cfg since from to dryRun force out2 s)).
Proof. intros H1 H2. by apply same_runAnnotate. Qed.

Lemma output_mode_only_prints_witness :
  unprinted (events (runAnnotate Scenario.flaky Scenario.cfg 10 "" "HEAD" false false
                       (mkOutput OutputTable) ∅)) =
  unprinted (events (runAnnotate Scenario.flaky Scenario.cfg 10 "" "HEAD" false false
                       (mkOutput OutputQuiet) ∅)).
Proof.
  apply (output_mode_only_prints Scenario.flaky Scenario.cfg 10 "" "HEAD" false false
           (mkOutput OutputTable) (mkOutput OutputQuiet) ∅); reflexivity.
Defined.

(** *** The request *)

Lemma append_inv_tail (a b t : string) : a +:+ t = b +:+ t -> a = b.
Proof.
  intros H. apply (f_equal list_ascii_of_string) in H.
  rewrite !list_ascii_append in H. apply app_inv_tail in H.
  rewrite <- (string_of_list_ascii_of_string a), <- (string_of_list_ascii_of_string b).
  by rewrite H.
Qed.

(** X16. The request for a commit carries the diff whole: requests
    for one commit with different diffs have different prompts, however
    long the diffs are; the system prompt and the model are the same for
    every commit and diff. *)
Theorem requests_tell_diffs_apart c diff1 diff2 c' :
  (diff1 <> diff2 ->
   Prompt (annotate_request c diff1) <> Prompt (annotate_request c diff2)) /\
  System (annotate_request c diff1) = System (annotate_request c' diff2) /\
  Model (annotate_request c diff1) = Model (annotate_request c' diff2).
Proof.
  split; [|done]. intros Hne H. apply Hne. clear Hne.
  unfold annotate_request, AnnotateCommit in H. cbn [Prompt] in H.
  repeat apply String.app_inj in H.
  by apply append_inv_tail in H.
Qed.

Lemma requests_tell_diffs_apart_witness :
  Prompt (annotate_request Scenario.c1 "+x") <> Prompt (annotate_request Scenario.c1 "+y").
Proof.
  apply (requests_tell_diffs_apart Scenario.c1 "+x" "+y" Scenario.c1). discriminate.
Defined.

(** *** The checks come first *)

Lemma events_emit_bind {B} e (k : unit -> M B) s :
  events (bind (emit e) k s) = e :: events (k tt s).
Proof. by rewrite events_bind. Qed.

Lemma events_logProgress_bind {B} out format args (k : unit -> M B) s :
  events (bind (logProgress out format args) k s) =
  progress out format args ++ events (k tt s).
Proof. by rewrite events_bind, logProgress_run. Qed.

Lemma progress_prints (P : Event -> Prop) out format args :
  P (EvPrintf format args) -> Forall P (progress out format args).
Proof. intros H. unfold progress. destruct (text_mode out); by repeat constructor. Qed.

(** X17. Before the configuration has been validated and the client
    made, a run does nothing but print and list the commits; a
    configuration that is refused, or a client that cannot be made, ends
    the run there: no diff is read, no request sent and no note looked
    for or written unless both have succeeded. *)
Theorem work_follows_the_checks env cfg since from to dryRun force out s :
  exists pre rest,
    events (runAnnotate env cfg since from to dryRun force out s) = pre ++ rest /\
    Forall (fun e => is_print e = true \/ e = EvExec "git" (log_args since from to)) pre /\
    (rest = [] \/
     (rest = [EvValidateConfig cfg] /\ ai_ValidateConfig env cfg <> None) \/
     (rest = [EvValidateConfig cfg; EvNewClient cfg] /\
      ai_ValidateConfig env cfg = None /\ ai_NewClient env cfg <> None) \/
     (exists work,
        rest = EvValidateConfig cfg :: EvNewClient cfg :: work /\
        ai_ValidateConfig env cfg = None /\ ai_NewClient env cfg = None)).
Proof.
  unfold runAnnotate. rewrite events_logProgress_bind, events_bind, getCommits_run.
  unfold value at 1 2, notes_after at 1, events at 1. cbn [fst snd].
  set (start := progress out ("Starting git history annotation..." +:+ LF) []).
  set (log := EvExec "git" (log_args since from to)).
  assert (Forall (fun e => is_print e = true \/ e = log) (start ++ [log])) as Hpre.
  { apply Forall_app. split; [apply progress_prints; cbv beta; by left|]. constructor; [by right|constructor]. }
  destruct (value (getCommits env since from to ∅)) as [[commits|err]|p].
  2,3: exists (start ++ [log]), []; rewrite !app_nil_r; by auto.
  destruct (length commits =? 0)%nat.
  { rewrite events_logProgress_bind.
    exists (start ++ [log] ++ progress out ("No commits to annotate." +:+ LF) []), [].
    split; [by rewrite !app_nil_r|]. split; [|by left].
    rewrite app_assoc. apply Forall_app. split; [done|]. apply progress_prints; cbv beta; by left. }
  rewrite events_logProgress_bind, events_emit_bind.
  set (found := progress out _ _).
  assert (Forall (fun e => is_print e = true \/ e = log) (start ++ [log] ++ found)) as Hpre'.
  { rewrite app_assoc. apply Forall_app. split; [done|]. apply progress_prints; cbv beta; by left. }
  exists (start ++ [log] ++ found).
  destruct (ai_ValidateConfig env cfg) as [err|] eqn:Hcfg.
  { exists [EvValidateConfig cfg]. split; [by rewrite <- !app_assoc|]. split; [done|].
    right. by left. }
  rewrite events_emit_bind.
  destruct (ai_NewClient env cfg) as [err|] eqn:Hcli.
  { exists [EvValidateConfig cfg; EvNewClient cfg]. split; [by rewrite <- !app_assoc|].
    split; [done|]. right. right. by left. }
  eexists. split; [by rewrite <- !app_assoc|]. split; [done|].
  do 3 right. by eexists.
Qed.
